(** * counter-app: the <counter-app> web component

    A shallow embedding of [src/counter-app.js] (class [CounterApp]) and the
    properties of its state-and-rendering logic.

    Layout of the development:
    - the host: the part of the JavaScript and DOM semantics the component
      relies on ([Number(v)], [String(n)], [Number.isFinite], attributes);
    - the component: one definition per method of the class, in the order of
      the source, written in state-passing style over the record [widget];
    - the properties. *)

From stdpp Require Import gmap strings pretty list.
From Stdlib Require Import ZArith Lia Ascii.

Local Open Scope Z_scope.

(* ===================================================================== *)
(** * The host: numbers and strings *)
(* ===================================================================== *)

(** ** Numbers

    The four fields of the component hold JavaScript Numbers.  The data model
    of the component types them as integers, and the development follows it:
    a field is a mathematical integer.  Model and code agree as long as the
    values involved are safe integers (magnitude below 2^53), where double
    arithmetic, comparison and decimal printing are exact.

    The result of [Number(v)] is one of:
    - [Fin z]: the literal denotes the integer [z], of a magnitude below
      2^53; the Number is [z] exactly;
    - [Approx z]: the literal denotes another value below the overflow
      bound, a fraction or a magnitude of 2^53 and above; the Number is
      finite, the double nearest to that value, and [z] is the value rounded
      toward zero, which is what an integer field keeps of it (fractions and
      the rounding of doubles are not followed);
    - [NaN], [PosInfinity], [NegInfinity]: exactly when JavaScript yields
      them.  They only occur as results of [Number(v)]; the guard of
      [_numAttr] keeps them out of the fields.

    A string is a sequence of code units below 256, the Latin-1 range of a
    DOM string. *)

Inductive number : Type :=
  | Fin (z : Z)
  | Approx (z : Z)
  | NaN
  | PosInfinity
  | NegInfinity.


(** The integer a field keeps of a finite Number. *)
Definition finite_value (n : number) : option Z :=
  match n with
  | Fin z | Approx z => Some z
  | _ => None
  end.

(** Unary minus on the result of a conversion. *)
Definition negate (n : number) : number :=
  match n with
  | Fin z => Fin (- z)
  | Approx z => Approx (- z)
  | NaN => NaN
  | PosInfinity => NegInfinity
  | NegInfinity => PosInfinity
  end.

(** Integers of a magnitude below [safe_bound] are the safe integers; a
    value of magnitude [overflow_bound] and above, half an ulp over the
    largest double, rounds to an infinity. *)
Definition safe_bound : Z := 2 ^ 53.
Definition overflow_bound : Z := 2 ^ 1024 - 2 ^ 970.

(** The Number nearest to an integer. *)
Definition of_integer (z : Z) : number :=
  if Z.abs z <? safe_bound then Fin z
  else if Z.abs z <? overflow_bound then Approx z
  else if z <? 0 then NegInfinity
  else PosInfinity.

(** ** Characters and digit strings *)

(** The value of a digit character, in any radix up to 16. *)
Definition digit_value (c : ascii) : option Z :=
  let n := Z.of_N (N_of_ascii c) in
  if (48 <=? n) && (n <=? 57) then Some (n - 48)
  else if (97 <=? n) && (n <=? 102) then Some (n - 87)
  else if (65 <=? n) && (n <=? 70) then Some (n - 55)
  else None.

Definition is_digit (radix : Z) (c : ascii) : bool :=
  match digit_value c with
  | Some d => d <? radix
  | None => false
  end.

Fixpoint string_forall (p : ascii → bool) (s : string) : bool :=
  match s with
  | EmptyString => true
  | String c s' => p c && string_forall p s'
  end.

Definition nonempty (s : string) : bool :=
  match s with
  | EmptyString => false
  | String _ _ => true
  end.

(** The longest prefix of [s] whose characters satisfy [p], and the rest. *)
Fixpoint span (p : ascii → bool) (s : string) : string * string :=
  match s with
  | EmptyString => (EmptyString, EmptyString)
  | String c s' =>
      if p c then let '(a, b) := span p s' in (String c a, b)
      else (EmptyString, s)
  end.

(** The mathematical value of a digit string, most significant digit first,
    on top of the accumulator [acc]. *)
Fixpoint digits_value (radix acc : Z) (s : string) : Z :=
  match s with
  | EmptyString => acc
  | String c s' =>
      digits_value radix (radix * acc + default 0 (digit_value c)) s'
  end.

(** ** White space *)

(** [StrWhiteSpaceChar] among the code units below 256: TAB, LF, VT, FF, CR,
    SP and NBSP. *)
Definition white_space (c : ascii) : bool :=
  Ascii.is_space c || bool_decide (c = "160"%char).

Fixpoint trim_start (s : string) : string :=
  match s with
  | EmptyString => EmptyString
  | String c s' => if white_space c then trim_start s' else s
  end.

Fixpoint trim_end (s : string) : string :=
  match s with
  | EmptyString => EmptyString
  | String c s' =>
      let r := trim_end s' in
      if white_space c && negb (nonempty r) then EmptyString
      else String c r
  end.

Definition trim (s : string) : string := trim_end (trim_start s).

(** ** [Number(v)] on a string: the abstract operation StringToNumber *)

(** [NonDecimalIntegerLiteral]: 0x, 0o or 0b (either case) and at least one
    digit of that radix; no sign. *)
Definition radix_of_prefix (c : ascii) : option Z :=
  if bool_decide (c = "x"%char ∨ c = "X"%char) then Some 16
  else if bool_decide (c = "o"%char ∨ c = "O"%char) then Some 8
  else if bool_decide (c = "b"%char ∨ c = "B"%char) then Some 2
  else None.

Definition non_decimal_literal (t : string) : option number :=
  match t with
  | String z (String x ds) =>
      if bool_decide (z = "0"%char) then
        match radix_of_prefix x with
        | Some r =>
            if nonempty ds && string_forall (is_digit r) ds
            then Some (of_integer (digits_value r 0 ds))
            else None
        | None => None
        end
      else None
  | _ => None
  end.

(** [SignedInteger]: decimal digits with an optional sign. *)
Definition signed_integer (r : string) : option Z :=
  let '(neg, ds) :=
    match r with
    | String c ds =>
        if bool_decide (c = "+"%char) then (false, ds)
        else if bool_decide (c = "-"%char) then (true, ds)
        else (false, r)
    | EmptyString => (false, r)
    end in
  if nonempty ds && string_forall (is_digit 10) ds
  then Some (if neg : bool then - digits_value 10 0 ds
             else digits_value 10 0 ds)
  else None.

(** [ExponentPart], optional: the empty rest stands for exponent 0. *)
Definition exponent_part (r : string) : option Z :=
  match r with
  | EmptyString => Some 0
  | String c r' =>
      if bool_decide (c = "e"%char ∨ c = "E"%char) then signed_integer r'
      else None
  end.

(** The Number denoted by the mantissa [m], not negative, and the decimal
    exponent [e]: the Number nearest to [m * 10^e]. *)
Definition decimal_value (m e : Z) : number :=
  if 0 <=? e then of_integer (m * 10 ^ e)
  else if m mod 10 ^ (- e) =? 0 then of_integer (m / 10 ^ (- e))
  else if overflow_bound * 10 ^ (- e) <=? m then PosInfinity
  else Approx (m / 10 ^ (- e)).

(** [StrUnsignedDecimalLiteral]: Infinity, or digits with an optional
    fraction and an optional exponent; a digit is required on one side of
    the point at least. *)
Definition unsigned_decimal (u : string) : number :=
  if bool_decide (u = "Infinity") then PosInfinity
  else
    let '(ip, r1) := span (is_digit 10) u in
    let '(fp, r2) :=
      match r1 with
      | String c r =>
          if bool_decide (c = "."%char) then span (is_digit 10) r
          else (EmptyString, r1)
      | EmptyString => (EmptyString, r1)
      end in
    if negb (nonempty ip) && negb (nonempty fp) then NaN
    else
      match exponent_part r2 with
      | Some e =>
          decimal_value (digits_value 10 0 (ip +:+ fp))
                        (e - Z.of_nat (String.length fp))
      | None => NaN
      end.

(** [StrDecimalLiteral]: an optional sign. *)
Definition str_decimal_literal (t : string) : number :=
  match t with
  | String c u =>
      if bool_decide (c = "+"%char) then unsigned_decimal u
      else if bool_decide (c = "-"%char) then negate (unsigned_decimal u)
      else unsigned_decimal t
  | EmptyString => unsigned_decimal t
  end.

(** [Number(v)] for a string [v]: white space is trimmed, the empty string
    converts to 0, anything that is not a numeric literal to [NaN]. *)
Definition StringToNumber (v : string) : number :=
  let t := trim v in
  if negb (nonempty t) then Fin 0
  else
    match non_decimal_literal t with
    | Some n => n
    | None => str_decimal_literal t
    end.

(** [String(n)] for an integer: the decimal numeral, with a leading minus
    sign for a negative number (the form JavaScript prints up to 10^21). *)
Definition NumberToString (n : Z) : string := pretty n.

(** [key.toLowerCase()], on the letters A to Z; the result is only compared
    with ["r"], which no other character maps to. *)
Definition lower_char (c : ascii) : ascii :=
  let n := N_of_ascii c in
  if ((65 <=? n) && (n <=? 90))%N then ascii_of_N (n + 32) else c.

Fixpoint toLowerCase (s : string) : string :=
  match s with
  | EmptyString => EmptyString
  | String c s' => String (lower_char c) (toLowerCase s')
  end.

(* ===================================================================== *)
(** * The component *)
(* ===================================================================== *)

(** ** State *)

(** The part of the shadow tree that [_update] writes: the number display
    [#num], the two bound labels and the two stepping buttons. *)
Record dom : Type := {
  num_text : string;
  num_class : list string;
  min_text : string;
  max_text : string;
  inc_disabled : bool;
  dec_disabled : bool
}.

(** An instance of [CounterApp]: the four private fields, the attributes of
    the host element, the content of the shadow root ([None] until [_render]
    has filled it), whether [_onKey] is registered on the window, and the
    number of times [_makeItRain] has been called. *)
Record widget : Type := {
  _counter : Z;
  _start : Z;
  _min : Z;
  _max : Z;
  attributes : gmap string string;
  shadowRoot : option dom;
  keydown : bool;
  confetti : nat
}.

Definition set_counter (w : widget) (n : Z) : widget :=
  {| _counter := n; _start := _start w; _min := _min w; _max := _max w;
     attributes := attributes w; shadowRoot := shadowRoot w;
     keydown := keydown w; confetti := confetti w |}.

Definition set_start (w : widget) (n : Z) : widget :=
  {| _counter := _counter w; _start := n; _min := _min w; _max := _max w;
     attributes := attributes w; shadowRoot := shadowRoot w;
     keydown := keydown w; confetti := confetti w |}.

Definition set_min (w : widget) (n : Z) : widget :=
  {| _counter := _counter w; _start := _start w; _min := n; _max := _max w;
     attributes := attributes w; shadowRoot := shadowRoot w;
     keydown := keydown w; confetti := confetti w |}.

Definition set_max (w : widget) (n : Z) : widget :=
  {| _counter := _counter w; _start := _start w; _min := _min w; _max := n;
     attributes := attributes w; shadowRoot := shadowRoot w;
     keydown := keydown w; confetti := confetti w |}.

Definition set_attributes (w : widget) (a : gmap string string) : widget :=
  {| _counter := _counter w; _start := _start w; _min := _min w;
     _max := _max w; attributes := a; shadowRoot := shadowRoot w;
     keydown := keydown w; confetti := confetti w |}.

Definition set_shadowRoot (w : widget) (d : option dom) : widget :=
  {| _counter := _counter w; _start := _start w; _min := _min w;
     _max := _max w; attributes := attributes w; shadowRoot := d;
     keydown := keydown w; confetti := confetti w |}.

Definition set_keydown (w : widget) (b : bool) : widget :=
  {| _counter := _counter w; _start := _start w; _min := _min w;
     _max := _max w; attributes := attributes w; shadowRoot := shadowRoot w;
     keydown := b; confetti := confetti w |}.

Definition set_confetti (w : widget) (n : nat) : widget :=
  {| _counter := _counter w; _start := _start w; _min := _min w;
     _max := _max w; attributes := attributes w; shadowRoot := shadowRoot w;
     keydown := keydown w; confetti := n |}.

(** ** Methods, in the order of the source *)

Definition observedAttributes : list string :=
  ["counter"; "start"; "min"; "max"].

(** [constructor()]: the defaults. *)
Definition constructor : widget :=
  {| _counter := 0; _start := 0; _min := 0; _max := 10;
     attributes := ∅; shadowRoot := None; keydown := false; confetti := 0 |}.

(** [this.getAttribute(name)]; [None] is [null]. *)
Definition getAttribute (w : widget) (name : string) : option string :=
  attributes w !! name.

(** [_numAttr(name, fallback)] *)
Definition _numAttr (w : widget) (name : string) (fallback : Z) : Z :=
  match getAttribute w name with
  | None => fallback
  | Some v =>
      match StringToNumber v with
      | Fin n | Approx n => n
      | _ => fallback
      end
  end.

(** [classList.add(token)] *)
Definition classList_add (cl : list string) (token : string) : list string :=
  if bool_decide (token ∈ cl) then cl else cl ++ [token].

(** [_update()].  Before [_render] the shadow root is empty: [_$num], [_$inc]
    and [_$dec] are undefined and the two [getElementById] calls return
    [null], so every guarded statement is skipped. *)
Definition _update (w : widget) : widget :=
  match shadowRoot w with
  | None => w
  | Some d =>
      let cl := [] in
      let cl :=
        if _counter w =? 18 then classList_add cl "at-18"
        else if _counter w =? 21 then classList_add cl "at-21"
        else if _counter w =? _min w then classList_add cl "at-min"
        else if _counter w =? _max w then classList_add cl "at-max"
        else cl in
      let cl :=
        if (_counter w =? _min w) || (_counter w =? _max w)
        then classList_add cl "bold" else cl in
      set_shadowRoot w (Some
        {| num_text := NumberToString (_counter w);
           num_class := cl;
           min_text := NumberToString (_min w);
           max_text := NumberToString (_max w);
           inc_disabled := _counter w >=? _max w;
           dec_disabled := _counter w <=? _min w |})
  end.

(** [attributeChangedCallback(name, oldV, newV)]; it reads the attribute
    back from the element rather than using [newV]. *)
Definition attributeChangedCallback
    (w : widget) (name : string) (oldV newV : option string) : widget :=
  if bool_decide (oldV = newV) then w
  else
    let w := if bool_decide (name = "counter")
             then set_counter w (_numAttr w "counter" (_counter w)) else w in
    let w := if bool_decide (name = "start")
             then set_start w (_numAttr w "start" (_start w)) else w in
    let w := if bool_decide (name = "min")
             then set_min w (_numAttr w "min" (_min w)) else w in
    let w := if bool_decide (name = "max")
             then set_max w (_numAttr w "max" (_max w)) else w in
    _update w.

(** [this.setAttribute(name, value)], the DOM operation: the attribute is
    stored and, for an observed name, the callback runs before the call
    returns, also when the value did not change. *)
Definition setAttribute (w : widget) (name value : string) : widget :=
  let oldV := getAttribute w name in
  let w := set_attributes w (<[name := value]> (attributes w)) in
  if bool_decide (name ∈ observedAttributes)
  then attributeChangedCallback w name oldV (Some value)
  else w.

(** [this.removeAttribute(name)] *)
Definition removeAttribute (w : widget) (name : string) : widget :=
  match getAttribute w name with
  | None => w
  | Some old =>
      let w := set_attributes w (delete name (attributes w)) in
      if bool_decide (name ∈ observedAttributes)
      then attributeChangedCallback w name (Some old) None
      else w
  end.

(** [_render()]: the template, with the three values interpolated and both
    buttons enabled, followed by [_update()]. *)
Definition _render (w : widget) : widget :=
  _update (set_shadowRoot w (Some
    {| num_text := NumberToString (_counter w);
       num_class := ["number"];
       min_text := NumberToString (_min w);
       max_text := NumberToString (_max w);
       inc_disabled := false;
       dec_disabled := false |})).

(** [connectedCallback()] *)
Definition connectedCallback (w : widget) : widget :=
  let w := set_counter w (_numAttr w "counter" (_counter w)) in
  let w := set_start w (_numAttr w "start" (_counter w)) in
  let w := set_min w (_numAttr w "min" (_min w)) in
  let w := set_max w (_numAttr w "max" (_max w)) in
  let w := _render w in
  set_keydown w true.

(** [disconnectedCallback()] *)
Definition disconnectedCallback (w : widget) : widget :=
  set_keydown w false.

(** [_makeItRain()]: the call is recorded.  Its body runs later (a dynamic
    import, then a timer) and only sets the [popped] attribute of the
    confetti container; it never touches the fields. *)
Definition _makeItRain (w : widget) : widget :=
  set_confetti w (S (confetti w)).

(** [_change(delta)] *)
Definition _change (w : widget) (delta : Z) : widget :=
  let next := _counter w + delta in
  if (next >? _max w) || (next <? _min w) then w
  else
    let w := set_counter w next in
    let w := setAttribute w "counter" (NumberToString (_counter w)) in
    let w := _update w in
    if _counter w =? 21 then _makeItRain w else w.

(** [_doReset()].  [_start] is never [null] or [undefined], so
    [Number(this._start ?? this._counter)] is [_start]. *)
Definition _doReset (w : widget) : widget :=
  let s := Z.min (_max w) (Z.max (_min w) (_start w)) in
  let w := set_counter w s in
  let w := setAttribute w "counter" (NumberToString (_counter w)) in
  _update w.

(** [_onKey(e)], on [e.key]. *)
Definition _onKey (w : widget) (key : string) : widget :=
  if bool_decide (key = "ArrowRight") then _change w 1
  else if bool_decide (key = "ArrowLeft") then _change w (-1)
  else if bool_decide (toLowerCase key = "r") then _doReset w
  else w.

(** ** What reaches the component from outside *)

Inductive button : Type := Inc | Dec | ResetButton.

Inductive event : Type :=
  | SetAttribute (name value : string)
  | RemoveAttribute (name : string)
  | Connect
  | Disconnect
  | Click (b : button)
  | KeyDown (key : string).

(** The click listeners installed by [_render]; a disabled button does not
    deliver its click, and there is no button before the first render. *)
Definition click (w : widget) (b : button) : widget :=
  match shadowRoot w with
  | None => w
  | Some d =>
      match b with
      | Inc => if inc_disabled d then w else _change w 1
      | Dec => if dec_disabled d then w else _change w (-1)
      | ResetButton => _doReset w
      end
  end.

Definition dispatch (w : widget) (e : event) : widget :=
  match e with
  | SetAttribute name value => setAttribute w name value
  | RemoveAttribute name => removeAttribute w name
  | Connect => connectedCallback w
  | Disconnect => disconnectedCallback w
  | Click b => click w b
  | KeyDown key => if keydown w then _onKey w key else w
  end.

Definition run (w : widget) (es : list event) : widget :=
  foldl dispatch w es.

(** A state of a widget that was constructed and then driven from outside. *)
Definition reachable (w : widget) : Prop :=
  ∃ es, w = run constructor es.

(** The transitions of the state store, and the external attribute changes. *)
Inductive operation : Type :=
  | Step (delta : Z)
  | Reset
  | AttributeChange (name value : string).

Definition apply (w : widget) (o : operation) : widget :=
  match o with
  | Step delta => _change w delta
  | Reset => _doReset w
  | AttributeChange name value => setAttribute w name value
  end.

Definition apply_all (w : widget) (os : list operation) : widget :=
  foldl apply w os.

(* ===================================================================== *)
(** * Notions used in the statements *)
(* ===================================================================== *)

(** ** The state store *)

(** The state store: the four fields. *)
Definition store (w : widget) : Z * Z * Z * Z :=
  (_counter w, _start w, _min w, _max w).

(** The field behind an observed attribute. *)
Definition field (w : widget) (name : string) : Z :=
  if bool_decide (name = "counter") then _counter w
  else if bool_decide (name = "start") then _start w
  else if bool_decide (name = "min") then _min w
  else _max w.

(** The bound invariant of the data model. *)
Definition in_range (w : widget) : Prop :=
  _min w <= _counter w <= _max w.

(** [clamp(x, lo, hi)] as the data model words it. *)
Definition clamp (x lo hi : Z) : Z :=
  if x <? lo then lo else if hi <? x then hi else x.


(** ** Configuration *)

(** The value [_numAttr] computes for an attribute holding [value]. *)
Definition converted (value : string) (fallback : Z) : Z :=
  default fallback (finite_value (StringToNumber value)).


(** Characters of a printed number. *)
Definition numeral_char (c : ascii) : bool := is_digit 10 c.

(** The widget as it stands once attached: the attributes of the markup are
    set on the freshly constructed element, then it is connected. *)
Definition attach (config : list (string * string)) : widget :=
  connectedCallback
    (foldl (λ w kv, setAttribute w kv.1 kv.2) constructor config).

(** The host element after [setAttribute('counter', String(this._counter))],
    callback apart. *)
Definition written_back (w : widget) : widget :=
  set_attributes w
    (<["counter" := NumberToString (_counter w)]> (attributes w)).

(** ** The view *)

(** What [_update] writes into a rendered shadow tree. *)
Definition rendering (w : widget) : dom :=
  {| num_text := NumberToString (_counter w);
     num_class :=
       (if _counter w =? 18 then ["at-18"]
        else if _counter w =? 21 then ["at-21"]
        else if _counter w =? _min w then ["at-min"]
        else if _counter w =? _max w then ["at-max"]
        else [])
       ++ (if (_counter w =? _min w) || (_counter w =? _max w)
           then ["bold"] else []);
     min_text := NumberToString (_min w);
     max_text := NumberToString (_max w);
     inc_disabled := _counter w >=? _max w;
     dec_disabled := _counter w <=? _min w |}.

(** The four color-state classes of the number display. *)
Definition color_classes : list string :=
  ["at-18"; "at-21"; "at-min"; "at-max"].

(** The color-state rules in their priority order, and first-match choice,
    as the view contract words them. *)
Definition color_rules (w : widget) : list (bool * string) :=
  [(_counter w =? 18, "at-18");
   (_counter w =? 21, "at-21");
   (_counter w =? _min w, "at-min");
   (_counter w =? _max w, "at-max")].

Definition first_match (rules : list (bool * string)) : option string :=
  snd <$> List.find fst rules.

(** ** User interaction *)

(** The events a user of the page produces: clicks and key presses. *)
Definition is_interaction (e : event) : Prop :=
  match e with
  | Click _ | KeyDown _ => True
  | _ => False
  end.

(** ** Invariants of a widget driven from outside *)

(** The shadow tree, once rendered, shows the current fields. *)
Definition view_synced (w : widget) : Prop :=
  ∀ d, shadowRoot w = Some d → d = rendering w.

(** An observed attribute that holds a numeral agrees with its field. *)
Definition attributes_synced (w : widget) : Prop :=
  ∀ name v n,
    name ∈ observedAttributes → getAttribute w name = Some v →
    finite_value (StringToNumber v) = Some n → field w name = n.

(* ===================================================================== *)
(** * Sample runs *)
(* ===================================================================== *)

Example StringToNumber_samples :
  map StringToNumber
      ["7"; "-12"; "+3"; "  42 "; ""; "   "; "007"; "0x1F"; "0b101"; "1e3";
       "2.50e1"; "5."; "-0"]
  = map Fin [7; -12; 3; 42; 0; 0; 7; 31; 5; 1000; 25; 5; 0]
  ∧ map StringToNumber
      ["abc"; "1a"; "."; "e3"; "5e"; "- 5"; "+-5"; "0x"; "0b2"; "+0x10";
       "1 2"; "infinity"; "NaN"; "1_000"]
  = replicate 14 NaN
  ∧ map StringToNumber
      ["Infinity"; "+Infinity"; "-Infinity"; " Infinity "; "1e400"; "-2e308"]
  = [PosInfinity; PosInfinity; NegInfinity; PosInfinity; PosInfinity;
     NegInfinity]
  ∧ map StringToNumber
      ["1.5"; "-1.5"; ".5"; "9007199254740992"; "9007199254740993"; "1e21"]
  = map Approx [1; -1; 0; 9007199254740992; 9007199254740993; 10 ^ 21]
  ∧ StringToNumber "9007199254740991" = Fin 9007199254740991
  ∧ StringToNumber (String "160"%char "7") = Fin 7.
Proof. repeat split; vm_compute; reflexivity. Qed.

Example NumberToString_samples :
  map NumberToString [0; 7; 21; -3; 100] = ["0"; "7"; "21"; "-3"; "100"].
Proof. vm_compute. reflexivity. Qed.

Example scenario_A_trace :
  let w := apply_all (connectedCallback constructor) (replicate 10 (Step 1)) in
  _counter w = 10 ∧ getAttribute w "counter" = Some "10" ∧
  shadowRoot w = Some {| num_text := "10"; num_class := ["at-max"; "bold"];
                         min_text := "0"; max_text := "10";
                         inc_disabled := true; dec_disabled := false |}.
Proof. vm_compute. auto. Qed.

(* ===================================================================== *)
(** * Properties of the host functions *)
(* ===================================================================== *)

Section HostFacts.

Lemma digit_value_pretty_N_char (d : N) :
  (d < 10)%N → digit_value (pretty_N_char d) = Some (Z.of_N d).
Proof.
  intros Hd.
  assert (d = 0 ∨ d = 1 ∨ d = 2 ∨ d = 3 ∨ d = 4 ∨ d = 5 ∨ d = 6 ∨ d = 7
          ∨ d = 8 ∨ d = 9)%N as Hcases by lia.
  repeat (destruct Hcases as [-> | Hcases]; [reflexivity |]).
  subst d. reflexivity.
Qed.

Lemma numeral_char_pretty_N_char (d : N) :
  (d < 10)%N → numeral_char (pretty_N_char d) = true.
Proof.
  intros Hd. unfold numeral_char, is_digit.
  rewrite digit_value_pretty_N_char by done.
  apply Z.ltb_lt. lia.
Qed.

Lemma pretty_N_go_numeral (x : N) (s : string) :
  string_forall numeral_char s = true →
  string_forall numeral_char (pretty_N_go x s) = true.
Proof.
  revert s. induction (N.lt_wf_0 x) as [x _ IH]. intros s Hs.
  destruct (decide (x = 0%N)) as [-> | Hx].
  - by rewrite pretty_N_go_0.
  - rewrite pretty_N_go_step by lia.
    apply IH; [apply N.div_lt; lia |].
    simpl. rewrite numeral_char_pretty_N_char, Hs; [done |].
    apply N.mod_lt. lia.
Qed.

Lemma pretty_N_go_nonempty (x : N) (s : string) :
  (0 < x)%N → nonempty (pretty_N_go x s) = true.
Proof.
  revert s. induction (N.lt_wf_0 x) as [x _ IH]. intros s Hx.
  rewrite pretty_N_go_step by done.
  destruct (decide (x `div` 10 = 0)%N) as [-> | Hq].
  - by rewrite pretty_N_go_0.
  - apply IH; [apply N.div_lt; lia | by apply N.neq_0_lt_0].
Qed.

(** Reading back what the printer emitted: [k] is the number of digits. *)
Lemma digits_value_pretty_N_go (x : N) :
  ∃ k : Z, 0 <= k ∧ ∀ acc s,
    digits_value 10 acc (pretty_N_go x s)
    = digits_value 10 (acc * 10 ^ k + Z.of_N x) s.
Proof.
  induction (N.lt_wf_0 x) as [x _ IH].
  destruct (decide (x = 0%N)) as [-> | Hx].
  - exists 0. split; [done |]. intros acc s.
    rewrite pretty_N_go_0. f_equal. simpl. lia.
  - destruct (IH (x `div` 10)%N) as (k & Hk & IHk); [apply N.div_lt; lia |].
    exists (k + 1). split; [lia |]. intros acc s.
    rewrite pretty_N_go_step, IHk by lia. simpl.
    rewrite digit_value_pretty_N_char by (apply N.mod_lt; lia). simpl.
    f_equal. rewrite Z.pow_add_r, Z.pow_1_r by lia.
    rewrite N2Z.inj_div, N2Z.inj_mod.
    pose proof (Z.div_mod (Z.of_N x) 10 ltac:(lia)) as Hdm.
    change (Z.of_N 10) with 10. lia.
Qed.

Lemma pretty_N_numeral (x : N) :
  string_forall numeral_char (pretty x) = true ∧ nonempty (pretty x) = true.
Proof.
  unfold pretty, pretty_N. case_decide as Hx; [done |].
  split; [by apply pretty_N_go_numeral | apply pretty_N_go_nonempty; lia].
Qed.

Lemma digits_value_pretty_N (x : N) :
  digits_value 10 0 (pretty x) = Z.of_N x.
Proof.
  unfold pretty, pretty_N. case_decide as Hx; [by subst |].
  destruct (digits_value_pretty_N_go x) as (k & _ & Hk).
  rewrite Hk. simpl. lia.
Qed.

(** A numeral has no white space, is not [Infinity], and is a run of
    digits for [span]. *)
Lemma span_forall (p : ascii → bool) (s : string) :
  string_forall p s = true → span p s = (s, EmptyString).
Proof.
  induction s as [| c s IH]; simpl; [done |].
  intros [Hc Hs]%andb_prop. rewrite Hc, IH; done.
Qed.

Lemma string_forall_impl (p q : ascii → bool) (s : string) :
  (∀ c, p c = true → q c = true) →
  string_forall p s = true → string_forall q s = true.
Proof.
  intros Hpq. induction s as [| c s IH]; simpl; [done |].
  intros [Hc Hs]%andb_prop. rewrite (Hpq _ Hc), IH; done.
Qed.

Lemma trim_end_no_space (s : string) :
  string_forall (λ c, negb (white_space c)) s = true → trim_end s = s.
Proof.
  induction s as [| c s IH]; simpl; [done |].
  intros [Hc Hs]%andb_prop. rewrite IH by done.
  apply negb_true_iff in Hc. by rewrite Hc.
Qed.

Lemma trim_no_space (s : string) :
  string_forall (λ c, negb (white_space c)) s = true → trim s = s.
Proof.
  intros Hs. unfold trim.
  assert (trim_start s = s) as ->; [| by apply trim_end_no_space].
  destruct s as [| c s]; simpl in *; [done |].
  apply andb_prop in Hs as [Hc _]. apply negb_true_iff in Hc.
  by rewrite Hc.
Qed.

(** What a character that passes a test on its code is not. *)
Lemma numeral_char_cases (c : ascii) :
  numeral_char c = true →
  white_space c = false ∧ c ≠ "+"%char ∧ c ≠ "-"%char ∧ c ≠ "."%char
  ∧ c ≠ "I"%char ∧ radix_of_prefix c = None.
Proof.
  intros Hc.
  repeat split; try (intros ->; vm_compute in Hc; discriminate).
  - destruct (white_space c) eqn:Hs; [| done].
    destruct c as [[] [] [] [] [] [] [] []]; vm_compute in Hs, Hc;
      discriminate.
  - unfold radix_of_prefix.
    repeat case_bool_decide; try done;
      match goal with
      | H : _ ∨ _ |- _ => destruct H as [-> | ->]
      end; vm_compute in Hc; discriminate.
Qed.

Lemma numeral_no_space (s : string) :
  string_forall numeral_char s = true →
  string_forall (λ c, negb (white_space c)) s = true.
Proof.
  apply string_forall_impl. intros c Hc.
  destruct (numeral_char_cases c Hc) as (-> & _). done.
Qed.

Lemma negate_of_integer (z : Z) : negate (of_integer z) = of_integer (- z).
Proof.
  unfold of_integer. rewrite Z.abs_opp.
  destruct (Z.abs z <? safe_bound) eqn:Hsafe; [done |].
  destruct (Z.abs z <? overflow_bound); [done |].
  apply Z.ltb_ge in Hsafe.
  assert (0 < safe_bound) by done.
  destruct (z <? 0) eqn:Hz, (- z <? 0) eqn:Hz'; try done; lia.
Qed.

Lemma of_integer_finite (z m : Z) :
  finite_value (of_integer z) = Some m → m = z.
Proof.
  unfold of_integer. repeat case_match; simpl; congruence.
Qed.

(** [Number(String(n))] for a natural number. *)
Lemma unsigned_decimal_numeral (s : string) :
  string_forall numeral_char s = true → nonempty s = true →
  unsigned_decimal s = of_integer (digits_value 10 0 s).
Proof.
  intros Hs Hne. unfold unsigned_decimal.
  case_bool_decide as HI.
  { subst s. vm_compute in Hs. discriminate. }
  fold numeral_char. rewrite span_forall by done. simpl.
  rewrite Hne. simpl. unfold decimal_value. simpl.
  assert (s +:+ "" = s) as ->.
  { clear. induction s as [| c s IH]; [done |].
    unfold String.app in *. simpl. by rewrite IH. }
  f_equal. lia.
Qed.

Lemma non_decimal_literal_numeral (s : string) :
  string_forall numeral_char s = true → non_decimal_literal s = None.
Proof.
  intros Hs. destruct s as [| z [| x ds]]; simpl; try done.
  case_bool_decide; [| done].
  simpl in Hs. apply andb_prop in Hs as [_ [Hx _]%andb_prop].
  destruct (numeral_char_cases x Hx) as (_ & _ & _ & _ & _ & ->). done.
Qed.

Lemma StringToNumber_numeral (s : string) :
  string_forall numeral_char s = true → nonempty s = true →
  StringToNumber s = of_integer (digits_value 10 0 s).
Proof.
  intros Hs Hne. unfold StringToNumber.
  rewrite trim_no_space by by apply numeral_no_space.
  rewrite Hne, non_decimal_literal_numeral by done. simpl.
  rewrite <- unsigned_decimal_numeral by done.
  destruct s as [| c s]; [done |]. simpl.
  simpl in Hs. apply andb_prop in Hs as [Hc _].
  destruct (numeral_char_cases c Hc) as (_ & Hplus & Hminus & _).
  by rewrite !bool_decide_eq_false_2.
Qed.

Lemma StringToNumber_minus_numeral (s : string) :
  string_forall numeral_char s = true → nonempty s = true →
  StringToNumber ("-" +:+ s) = of_integer (- digits_value 10 0 s).
Proof.
  intros Hs Hne. unfold StringToNumber.
  change ("-" +:+ s) with (String "-" s).
  rewrite trim_no_space.
  2:{ simpl. by apply numeral_no_space. }
  destruct s as [| x ds]; [done |].
  unfold non_decimal_literal, str_decimal_literal, nonempty, negb.
  rewrite (bool_decide_eq_false_2 ("-"%char = "0"%char)) by done.
  rewrite (bool_decide_eq_false_2 ("-"%char = "+"%char)) by done.
  rewrite (bool_decide_eq_true_2 ("-"%char = "-"%char)) by done.
  by rewrite unsigned_decimal_numeral, negate_of_integer.
Qed.

(** The round trip the component relies on when it writes [counter] back
    to its own attribute: the numeral reads back as the number itself. *)
Lemma StringToNumber_NumberToString (n : Z) :
  StringToNumber (NumberToString n) = of_integer n.
Proof.
  unfold NumberToString, pretty, pretty_Z. destruct n as [| p | p].
  - done.
  - destruct (pretty_N_numeral (Npos p)) as [Hd Hne].
    unfold pretty, pretty_positive.
    rewrite StringToNumber_numeral, digits_value_pretty_N by done. done.
  - destruct (pretty_N_numeral (Npos p)) as [Hd Hne].
    unfold pretty at 1, pretty_positive.
    rewrite StringToNumber_minus_numeral, digits_value_pretty_N by done.
    done.
Qed.

End HostFacts.

(* ===================================================================== *)
(** * Properties of the component *)
(* ===================================================================== *)

Section ComponentFacts.

Implicit Types (w : widget) (name value key : string) (delta n : Z).

Lemma _numAttr_eq w name fallback :
  _numAttr w name fallback =
  match getAttribute w name with
  | None => fallback
  | Some v => converted v fallback
  end.
Proof.
  unfold _numAttr, converted. destruct (getAttribute w name); [| done].
  by destruct (StringToNumber _).
Qed.

Lemma converted_NumberToString n : converted (NumberToString n) n = n.
Proof.
  unfold converted. rewrite StringToNumber_NumberToString.
  destruct (finite_value (of_integer n)) as [m |] eqn:Hm; [| done].
  by apply of_integer_finite in Hm.
Qed.

Lemma converted_finite value fallback n :
  finite_value (StringToNumber value) = Some n → converted value fallback = n.
Proof. unfold converted. by intros ->. Qed.


Lemma observed_counter : "counter" ∈ observedAttributes.
Proof. apply list_elem_of_here. Qed.

Lemma observed_cases name :
  name ∈ observedAttributes →
  name = "counter" ∨ name = "start" ∨ name = "min" ∨ name = "max".
Proof.
  unfold observedAttributes. intros H.
  repeat (apply elem_of_cons in H as [-> | H]; [tauto |]).
  by apply elem_of_nil in H.
Qed.

(** [_update] only writes the shadow tree. *)
Lemma _update_eq w :
  _update w =
  match shadowRoot w with
  | None => w
  | Some _ => set_shadowRoot w (Some (rendering w))
  end.
Proof.
  unfold _update, rendering, classList_add.
  destruct (shadowRoot w); [| done]. do 2 f_equal.
  destruct w as [c st mn mx at' sh kd cf]; simpl. f_equal.
  destruct (c =? 18), (c =? 21), (c =? mn), (c =? mx); reflexivity.
Qed.

Lemma _update_store w : store (_update w) = store w.
Proof. rewrite _update_eq. by destruct (shadowRoot w). Qed.

Lemma _update_attributes w : attributes (_update w) = attributes w.
Proof. rewrite _update_eq. by destruct (shadowRoot w). Qed.

Lemma _update_confetti w : confetti (_update w) = confetti w.
Proof. rewrite _update_eq. by destruct (shadowRoot w). Qed.

Lemma _update_keydown w : keydown (_update w) = keydown w.
Proof. rewrite _update_eq. by destruct (shadowRoot w). Qed.

Lemma _update_shadowRoot w :
  shadowRoot (_update w) = (λ _, rendering w) <$> shadowRoot w.
Proof. rewrite _update_eq. by destruct (shadowRoot w) eqn:E. Qed.

Lemma _update_idempotent w : _update (_update w) = _update w.
Proof.
  rewrite !_update_eq.
  destruct w as [c st mn mx at' [d |] kd cf]; reflexivity.
Qed.

(** Writing the counter back to its attribute re-enters
    [attributeChangedCallback], which parses the numeral it was just
    given: the fields stay as they are. *)
Lemma setAttribute_counter w :
  setAttribute w "counter" (NumberToString (_counter w)) =
  if bool_decide (getAttribute w "counter"
                  = Some (NumberToString (_counter w)))
  then written_back w else _update (written_back w).
Proof.
  unfold setAttribute.
  rewrite (bool_decide_eq_true_2 _ observed_counter).
  unfold attributeChangedCallback. fold (written_back w).
  case_bool_decide; [done |].
  rewrite (bool_decide_eq_true_2 ("counter" = "counter")) by done.
  rewrite !bool_decide_eq_false_2 by done.
  f_equal. rewrite _numAttr_eq. unfold getAttribute, written_back. simpl.
  rewrite lookup_insert_eq, converted_NumberToString.
  by destruct w.
Qed.

Lemma _update_setAttribute_counter w :
  _update (setAttribute w "counter" (NumberToString (_counter w)))
  = _update (written_back w).
Proof.
  rewrite setAttribute_counter. case_bool_decide; [done |].
  apply _update_idempotent.
Qed.

(** The two transitions, with the re-entrant callback resolved. *)
Lemma _doReset_eq w :
  _doReset w =
  _update (written_back
    (set_counter w (Z.min (_max w) (Z.max (_min w) (_start w))))).
Proof.
  unfold _doReset.
  set (w1 := set_counter w _).
  apply (_update_setAttribute_counter w1).
Qed.

Lemma _change_eq w delta :
  _change w delta =
  if (_counter w + delta >? _max w) || (_counter w + delta <? _min w)
  then w
  else
    let w' := _update (written_back (set_counter w (_counter w + delta))) in
    if _counter w + delta =? 21 then _makeItRain w' else w'.
Proof.
  unfold _change. case_match; [done |].
  set (w1 := set_counter w _).
  rewrite (_update_setAttribute_counter w1).
  assert (store (_update (written_back w1)) = store w1) as [= -> _ _ _].
  { by rewrite _update_store. }
  done.
Qed.

Lemma _doReset_store w :
  store (_doReset w) =
  (Z.min (_max w) (Z.max (_min w) (_start w)), _start w, _min w, _max w).
Proof. by rewrite _doReset_eq, _update_store. Qed.

Lemma _change_store w delta :
  store (_change w delta) =
  if (_counter w + delta >? _max w) || (_counter w + delta <? _min w)
  then store w
  else (_counter w + delta, _start w, _min w, _max w).
Proof.
  rewrite _change_eq. case_match; [done |]. simpl.
  assert (∀ w', store (_makeItRain w') = store w') as Hrain by done.
  case_match; by rewrite ?Hrain, _update_store.
Qed.

Lemma _doReset_confetti w : confetti (_doReset w) = confetti w.
Proof. by rewrite _doReset_eq, _update_confetti. Qed.

Lemma _change_confetti w delta :
  confetti (_change w delta) =
  if (_counter w + delta >? _max w) || (_counter w + delta <? _min w)
  then confetti w
  else if _counter w + delta =? 21 then S (confetti w) else confetti w.
Proof.
  rewrite _change_eq. case_match; [done |]. simpl.
  case_match; simpl; by rewrite _update_confetti.
Qed.

End ComponentFacts.

Section AttributeFacts.

Implicit Types (w : widget) (name value f : string).

Lemma _numAttr_written w name value fallback :
  _numAttr (set_attributes w (<[name := value]> (attributes w)))
           name fallback
  = converted value fallback.
Proof.
  rewrite _numAttr_eq. unfold getAttribute. simpl.
  by rewrite lookup_insert_eq.
Qed.

Lemma attributeChangedCallback_same w name v :
  attributeChangedCallback w name v v = w.
Proof.
  unfold attributeChangedCallback. by rewrite bool_decide_eq_true_2.
Qed.

(** An external change of an observed attribute: the field of that name
    takes the converted value, unless the attribute already held the same
    string; every other field is left alone. *)
Lemma setAttribute_field w name value f :
  name ∈ observedAttributes → f ∈ observedAttributes →
  field (setAttribute w name value) f =
  if bool_decide (f = name ∧ getAttribute w name ≠ Some value)
  then converted value (field w f)
  else field w f.
Proof.
  intros Hname Hf. unfold setAttribute.
  rewrite (bool_decide_eq_true_2 _ Hname).
  unfold attributeChangedCallback.
  destruct (decide (getAttribute w name = Some value)) as [Heq | Hne].
  { rewrite (bool_decide_eq_true_2 _ Heq).
    rewrite bool_decide_eq_false_2 by tauto. done. }
  rewrite (bool_decide_eq_false_2 _ Hne).
  assert (∀ w', field (_update w') f = field w' f) as Hupd.
  { intros w'. pose proof (_update_store w') as [= Hc Hs Hmi Hma].
    unfold field. by rewrite Hc, Hs, Hmi, Hma. }
  rewrite Hupd.
  apply observed_cases in Hname as [-> | [-> | [-> | ->]]];
    apply observed_cases in Hf as [-> | [-> | [-> | ->]]];
    repeat (first [ rewrite bool_decide_eq_true_2 by done
                  | rewrite bool_decide_eq_false_2 by (by intros [? ?])
                  | rewrite bool_decide_eq_false_2 by done ]);
    try reflexivity;
    rewrite _numAttr_written; reflexivity.
Qed.

Lemma setAttribute_unobserved w name value :
  name ∉ observedAttributes →
  setAttribute w name value
  = set_attributes w (<[name := value]> (attributes w)).
Proof.
  intros Hname. unfold setAttribute. by rewrite bool_decide_eq_false_2.
Qed.

Lemma setAttribute_confetti w name value :
  confetti (setAttribute w name value) = confetti w.
Proof.
  unfold setAttribute, attributeChangedCallback.
  repeat case_bool_decide; rewrite ?_update_confetti; done.
Qed.

End AttributeFacts.

(* ===================================================================== *)
(** * The state store: bounds, stepping, reset *)
(* ===================================================================== *)

Section StateStore.

Implicit Types (w : widget) (o : operation) (os : list operation).

Lemma _change_in_range w delta : in_range w → in_range (_change w delta).
Proof.
  unfold in_range. intros Hw.
  pose proof (_change_store w delta) as Hs. unfold store in Hs.
  destruct (_ || _) eqn:Hguard; injection Hs as -> _ -> ->; [done |].
  apply orb_false_iff in Hguard as [Hmax Hmin]. lia.
Qed.

Lemma _doReset_in_range w : _min w <= _max w → in_range (_doReset w).
Proof.
  unfold in_range. intros Hw.
  pose proof (_doReset_store w) as [= -> _ -> ->]. lia.
Qed.








(** C2.  A step whose target [value + delta] lies outside [[min, max]]
    returns the widget as it is: fields, attributes, shadow tree and
    effects.  [_change] is a total function, so there is nothing to raise.
    This holds for every [delta], hence for -1 and +1; in particular a
    step up at [value = max] and a step down at [value = min] change
    nothing. *)
Theorem C2_step_outside_range_is_noop w delta :
  (¬ (_min w <= _counter w + delta <= _max w) → _change w delta = w)
  ∧ (_counter w = _max w → _change w 1 = w)
  ∧ (_counter w = _min w → _change w (-1) = w).
Proof.
  assert (∀ d, ¬ (_min w <= _counter w + d <= _max w) → _change w d = w)
    as Hout.
  { intros d Hd. unfold _change.
    destruct (_ || _) eqn:Hguard; [done |].
    apply orb_false_iff in Hguard as [Hmax Hmin]. lia. }
  repeat split; [apply Hout | |]; intros Hw; apply Hout; lia.
Qed.

Lemma C2_step_outside_range_witness :
  let w := apply_all (attach []) (replicate 10 (Step 1)) in
  ¬ (_min w <= _counter w + 1 <= _max w) ∧ _counter w = _max w
  ∧ _change w 1 = w.
Proof.
  intros w.
  assert (_counter w = 10 ∧ _min w = 0 ∧ _max w = 10)
    as (Hc & Hmin & Hmax) by (vm_compute; done).
  clearbody w.
  pose proof (C2_step_outside_range_is_noop w 1) as (Hout & _ & _).
  assert (¬ (_min w <= _counter w + 1 <= _max w)) as Hw by lia.
  split; [exact Hw |]. split; [lia |]. exact (Hout Hw).
Defined.

(** C3.  In a state with [min <= max], [reset()] sets [value] to
    [clamp(start, min, max)] and leaves [start], [min] and [max] alone. *)
Theorem C3_reset_clamps_start w :
  _min w <= _max w →
  store (_doReset w)
  = (clamp (_start w) (_min w) (_max w), _start w, _min w, _max w).
Proof.
  intros Hw. rewrite _doReset_store. do 3 f_equal.
  unfold clamp. repeat case_match; lia.
Qed.

(** Scenario C: [start=5, min=0, max=10]; the value is set to 3, then
    [reset()] brings it to 5. *)
Lemma C3_reset_clamps_start_witness :
  let w := apply_all (attach [("start", "5"); ("min", "0"); ("max", "10")])
                     [AttributeChange "counter" "3"] in
  store w = (3, 5, 0, 10) ∧ _min w <= _max w
  ∧ store (_doReset w) = (5, 5, 0, 10).
Proof.
  intros w.
  assert (store w = (3, 5, 0, 10)) as Hs by (vm_compute; done).
  assert (_start w = 5 ∧ _min w = 0 ∧ _max w = 10)
    as (Hst & Hmin & Hmax) by (vm_compute; done).
  clearbody w.
  assert (_min w <= _max w) as Hw by lia.
  split; [exact Hs |]. split; [exact Hw |].
  rewrite (C3_reset_clamps_start w Hw), Hst, Hmin, Hmax. reflexivity.
Defined.

(** Assigning the same value to [counter] and syncing a second time
    changes nothing. *)
Lemma assign_counter_twice w n :
  _update (written_back
    (set_counter (_update (written_back (set_counter w n))) n))
  = _update (written_back (set_counter w n)).
Proof.
  rewrite !_update_eq.
  destruct w as [c st mn mx at' [d |] kd cf]; unfold written_back; simpl;
    unfold set_attributes, set_shadowRoot, rendering; simpl;
    by rewrite insert_insert_eq.
Qed.

(** C8.  [reset()] is idempotent: a second reset in a row changes
    nothing, neither in the four fields nor anywhere else in the widget. *)
Theorem C8_reset_idempotent w :
  _doReset (_doReset w) = _doReset w
  ∧ store (_doReset (_doReset w)) = store (_doReset w).
Proof.
  assert (_doReset (_doReset w) = _doReset w) as Heq; [| by rewrite Heq].
  rewrite (_doReset_eq (_doReset w)).
  pose proof (_doReset_store w) as [= _ Hst Hmin Hmax].
  rewrite Hst, Hmin, Hmax, (_doReset_eq w).
  apply assign_counter_twice.
Qed.

End StateStore.

(* ===================================================================== *)
(** * Invariants of a widget driven from outside *)
(* ===================================================================== *)

Section Invariants.

Implicit Types (w : widget) (e : event) (es : list event).
Implicit Types (name value : string).

Lemma rendering_store w w' : store w = store w' → rendering w = rendering w'.
Proof.
  unfold store, rendering. intros [= Hc _ Hmin Hmax].
  by rewrite Hc, Hmin, Hmax.
Qed.

Lemma field_store w w' name : store w = store w' → field w name = field w' name.
Proof. unfold store, field. by intros [= -> -> -> ->]. Qed.

Lemma view_synced_ext w w' :
  shadowRoot w' = shadowRoot w → store w' = store w →
  view_synced w → view_synced w'.
Proof.
  unfold view_synced. intros Hsh Hst Hw d Hd.
  rewrite (rendering_store w' w Hst). apply Hw. by rewrite <- Hsh.
Qed.

Lemma attributes_synced_ext w w' :
  attributes w' = attributes w → store w' = store w →
  attributes_synced w → attributes_synced w'.
Proof.
  unfold attributes_synced, getAttribute. intros Hat Hst Hw name v n ???.
  rewrite (field_store w' w name Hst). apply (Hw name v n); [done | | done].
  by rewrite <- Hat.
Qed.

Lemma _update_view_synced w : view_synced (_update w).
Proof.
  intros d. rewrite _update_shadowRoot.
  rewrite (rendering_store _ _ (_update_store w)).
  destruct (shadowRoot w); [| done]. by intros [= <-].
Qed.

(** *** Attributes *)

Lemma setAttribute_attributes w name value :
  attributes (setAttribute w name value) = <[name := value]> (attributes w).
Proof.
  unfold setAttribute, attributeChangedCallback.
  repeat case_bool_decide; rewrite ?_update_attributes; done.
Qed.

Lemma setAttribute_shape w name value :
  (shadowRoot (setAttribute w name value) = shadowRoot w
   ∧ store (setAttribute w name value) = store w)
  ∨ (∃ w0, setAttribute w name value = _update w0).
Proof.
  unfold setAttribute, attributeChangedCallback.
  repeat case_bool_decide; eauto.
Qed.

Lemma removeAttribute_attributes w name :
  attributes (removeAttribute w name) = delete name (attributes w).
Proof.
  unfold removeAttribute, attributeChangedCallback, getAttribute.
  destruct (attributes w !! name) eqn:Hold.
  - repeat case_bool_decide; rewrite ?_update_attributes; done.
  - symmetry. by apply delete_id.
Qed.

Lemma removeAttribute_store w name : store (removeAttribute w name) = store w.
Proof.
  unfold removeAttribute, attributeChangedCallback.
  destruct (getAttribute w name) eqn:Hold; [| done].
  case_bool_decide as Hobs; [| done].
  rewrite bool_decide_eq_false_2 by done. rewrite _update_store.
  assert (∀ fallback,
            _numAttr (set_attributes w (delete name (attributes w)))
                     name fallback = fallback) as Hnum.
  { intros fallback. unfold _numAttr, getAttribute. simpl.
    by rewrite lookup_delete_eq. }
  apply observed_cases in Hobs as [-> | [-> | [-> | ->]]];
    repeat (first [ rewrite bool_decide_eq_true_2 by done
                  | rewrite bool_decide_eq_false_2 by done ]);
    rewrite Hnum; by destruct w.
Qed.

Lemma removeAttribute_shape w name :
  shadowRoot (removeAttribute w name) = shadowRoot w
  ∨ (∃ w0, removeAttribute w name = _update w0).
Proof.
  unfold removeAttribute, attributeChangedCallback.
  destruct (getAttribute w name); repeat case_bool_decide; eauto.
Qed.

Lemma setAttribute_view_synced w name value :
  view_synced w → view_synced (setAttribute w name value).
Proof.
  intros Hw.
  destruct (setAttribute_shape w name value) as [[Hsh Hst] | [w0 ->]].
  - by apply (view_synced_ext w).
  - apply _update_view_synced.
Qed.

Lemma removeAttribute_view_synced w name :
  view_synced w → view_synced (removeAttribute w name).
Proof.
  intros Hw. destruct (removeAttribute_shape w name) as [Hsh | [w0 ->]].
  - apply (view_synced_ext w); [done | apply removeAttribute_store | done].
  - apply _update_view_synced.
Qed.

Lemma setAttribute_attributes_synced w name value :
  attributes_synced w → attributes_synced (setAttribute w name value).
Proof.
  intros Hw name0 v n Hobs0 Hv Hn.
  unfold getAttribute in Hv. rewrite setAttribute_attributes in Hv.
  destruct (decide (name ∈ observedAttributes)) as [Hobs | Hobs].
  - rewrite setAttribute_field by done.
    destruct (decide (name0 = name)) as [-> | Hne].
    + rewrite lookup_insert_eq in Hv. injection Hv as ->.
      case_bool_decide as Hchg.
      * by apply converted_finite.
      * apply (Hw name v n); [done | | done].
        destruct (decide (getAttribute w name = Some v)); [done | tauto].
    + rewrite lookup_insert_ne in Hv by done.
      rewrite bool_decide_eq_false_2 by tauto. by apply (Hw name0 v n).
  - rewrite setAttribute_unobserved by done.
    assert (name0 ≠ name) as Hne by (by intros ->).
    rewrite lookup_insert_ne in Hv by done. by apply (Hw name0 v n).
Qed.

Lemma removeAttribute_attributes_synced w name :
  attributes_synced w → attributes_synced (removeAttribute w name).
Proof.
  intros Hw name0 v n Hobs0 Hv Hn.
  unfold getAttribute in Hv. rewrite removeAttribute_attributes in Hv.
  rewrite (field_store _ w name0 (removeAttribute_store w name)).
  destruct (decide (name0 = name)) as [-> | Hne].
  - by rewrite lookup_delete_eq in Hv.
  - rewrite lookup_delete_ne in Hv by done. by apply (Hw name0 v n).
Qed.

End Invariants.

Section Reachability.

Implicit Types (w : widget) (e : event) (es : list event).
Implicit Types (name value key : string) (delta : Z).

(** *** The transitions *)

Lemma sync_attributes_synced w n :
  attributes_synced w →
  attributes_synced (_update (written_back (set_counter w n))).
Proof.
  intros Hw name v m Hobs Hv Hm.
  unfold getAttribute in Hv. rewrite _update_attributes in Hv.
  rewrite (field_store _ _ name (_update_store _)).
  unfold written_back in *. simpl in Hv.
  destruct (decide (name = "counter")) as [-> | Hne].
  - rewrite lookup_insert_eq in Hv. injection Hv as <-.
    rewrite StringToNumber_NumberToString in Hm.
    by apply of_integer_finite in Hm as ->.
  - rewrite lookup_insert_ne in Hv by done.
    rewrite <- (Hw name v m Hobs Hv Hm).
    unfold field. by rewrite (bool_decide_eq_false_2 (name = "counter")).
Qed.

Lemma _doReset_view_synced w : view_synced (_doReset w).
Proof. rewrite _doReset_eq. apply _update_view_synced. Qed.

Lemma _doReset_attributes_synced w :
  attributes_synced w → attributes_synced (_doReset w).
Proof. rewrite _doReset_eq. apply sync_attributes_synced. Qed.

Lemma _change_view_synced w delta :
  view_synced w → view_synced (_change w delta).
Proof.
  intros Hw. rewrite _change_eq. case_match; [done |]. simpl.
  case_match; [| apply _update_view_synced].
  eapply view_synced_ext; [| | apply _update_view_synced]; done.
Qed.

Lemma _change_attributes_synced w delta :
  attributes_synced w → attributes_synced (_change w delta).
Proof.
  intros Hw. rewrite _change_eq. case_match; [done |]. simpl.
  case_match; [| by apply sync_attributes_synced].
  eapply attributes_synced_ext; [| | by apply sync_attributes_synced];
    done.
Qed.

(** *** Attaching *)

Lemma connectedCallback_view_synced w : view_synced (connectedCallback w).
Proof.
  unfold connectedCallback, _render.
  eapply view_synced_ext; [| | apply _update_view_synced]; done.
Qed.

Lemma connectedCallback_store w :
  store (connectedCallback w) =
  (_numAttr w "counter" (_counter w),
   _numAttr w "start" (_numAttr w "counter" (_counter w)),
   _numAttr w "min" (_min w),
   _numAttr w "max" (_max w)).
Proof.
  unfold connectedCallback, _render.
  change (store (set_keydown ?x true)) with (store x).
  rewrite _update_store. by destruct w.
Qed.

Lemma connectedCallback_attributes w :
  attributes (connectedCallback w) = attributes w.
Proof.
  unfold connectedCallback, _render.
  change (attributes (set_keydown ?x true)) with (attributes x).
  by rewrite _update_attributes.
Qed.

Lemma connectedCallback_attributes_synced w :
  attributes_synced (connectedCallback w).
Proof.
  intros name v n Hobs Hv Hn. unfold getAttribute in Hv.
  rewrite connectedCallback_attributes in Hv.
  pose proof (connectedCallback_store w) as Hstore.
  pose proof (f_equal (λ s, s.1.1.1) Hstore) as Hc.
  pose proof (f_equal (λ s, s.1.1.2) Hstore) as Hs.
  pose proof (f_equal (λ s, s.1.2) Hstore) as Hmin.
  pose proof (f_equal (λ s, s.2) Hstore) as Hmax.
  simpl in Hc, Hs, Hmin, Hmax. clear Hstore.
  assert (∀ fallback, _numAttr w name fallback = n) as Hnum.
  { intros fallback. rewrite _numAttr_eq. unfold getAttribute.
    rewrite Hv. by apply converted_finite. }
  unfold field.
  apply observed_cases in Hobs as [-> | [-> | [-> | ->]]];
    repeat (first [ rewrite bool_decide_eq_true_2 by done
                  | rewrite bool_decide_eq_false_2 by done ]);
    rewrite ?Hc, ?Hs, ?Hmin, ?Hmax; apply Hnum.
Qed.

(** *** Events *)

Lemma dispatch_view_synced w e : view_synced w → view_synced (dispatch w e).
Proof.
  intros Hw. destruct e as [name value | name | | | b | key]; simpl.
  - by apply setAttribute_view_synced.
  - by apply removeAttribute_view_synced.
  - apply connectedCallback_view_synced.
  - by apply (view_synced_ext w).
  - unfold click. destruct (shadowRoot w); [| done].
    destruct b; repeat case_match;
      auto using _change_view_synced, _doReset_view_synced.
  - unfold _onKey. repeat case_match;
      auto using _change_view_synced, _doReset_view_synced.
Qed.

Lemma dispatch_attributes_synced w e :
  attributes_synced w → attributes_synced (dispatch w e).
Proof.
  intros Hw. destruct e as [name value | name | | | b | key]; simpl.
  - by apply setAttribute_attributes_synced.
  - by apply removeAttribute_attributes_synced.
  - apply connectedCallback_attributes_synced.
  - by apply (attributes_synced_ext w).
  - unfold click. destruct (shadowRoot w); [| done].
    destruct b; repeat case_match;
      auto using _change_attributes_synced, _doReset_attributes_synced.
  - unfold _onKey. repeat case_match;
      auto using _change_attributes_synced, _doReset_attributes_synced.
Qed.

Lemma reachable_ind (P : widget → Prop) :
  P constructor → (∀ w e, P w → P (dispatch w e)) →
  ∀ w, reachable w → P w.
Proof.
  intros Hinit Hstep w [es ->]. unfold run.
  induction es as [| e es IH] using rev_ind; [done |].
  rewrite foldl_snoc. by apply Hstep.
Qed.

Lemma reachable_dispatch w e : reachable w → reachable (dispatch w e).
Proof.
  intros [es ->]. exists (es ++ [e]). unfold run. by rewrite foldl_snoc.
Qed.

Lemma reachable_view_synced w : reachable w → view_synced w.
Proof.
  revert w. apply reachable_ind; [done | apply dispatch_view_synced].
Qed.

Lemma reachable_attributes_synced w : reachable w → attributes_synced w.
Proof.
  revert w. apply reachable_ind; [| apply dispatch_attributes_synced].
  intros name v n _ Hv. unfold getAttribute in Hv. simpl in Hv.
  by rewrite lookup_empty in Hv.
Qed.

Lemma attach_reachable config : reachable (attach config).
Proof.
  exists (map (λ kv, SetAttribute kv.1 kv.2) config ++ [Connect]).
  unfold attach, run. rewrite foldl_snoc. simpl. f_equal.
  generalize constructor.
  induction config as [| kv config IH]; intros w; simpl; [done |].
  apply IH.
Qed.

End Reachability.

(* ===================================================================== *)
(** * The view binder *)
(* ===================================================================== *)

Section ViewBinder.

Implicit Types (w : widget) (d : dom).

(** C6.  After a sync of a rendered widget, the color-state classes on the
    number display are exactly the first rule that matches, in the order
    [value = 18], [value = 21], [value = min], [value = max]: one class at
    most.  When [value = 18] and [value = min] hold together, the class is
    [at-18] and [at-min] is not assigned. *)
Theorem C6_color_state_first_match w d :
  shadowRoot w = Some d →
  ∃ d', shadowRoot (_update w) = Some d'
    ∧ filter (.∈ color_classes) (num_class d')
      = option_list (first_match (color_rules w))
    ∧ (length (filter (.∈ color_classes) (num_class d')) ≤ 1)%nat
    ∧ (_counter w = 18 → _counter w = _min w →
       "at-18" ∈ num_class d' ∧ "at-min" ∉ num_class d').
Proof.
  intros Hd. exists (rendering w).
  rewrite _update_shadowRoot, Hd. split; [done |].
  unfold rendering, color_rules, first_match. simpl.
  split; [| split].
  - destruct (_counter w =? 18), (_counter w =? 21),
      (_counter w =? _min w), (_counter w =? _max w); reflexivity.
  - destruct (_counter w =? 18), (_counter w =? 21),
      (_counter w =? _min w), (_counter w =? _max w); simpl; lia.
  - intros H18 Hmin. rewrite <- Hmin, H18. simpl.
    destruct (18 =? _max w); simpl; split;
      rewrite ?elem_of_cons, ?elem_of_nil; try tauto;
      intros [? | [? | ?]]; done.
Qed.

Lemma C6_color_state_witness :
  let w := attach [("min", "18"); ("max", "30"); ("counter", "18")] in
  ∃ d', shadowRoot (_update w) = Some d'
    ∧ filter (.∈ color_classes) (num_class d') = ["at-18"]
    ∧ "at-min" ∉ num_class d'.
Proof.
  intros w.
  assert (shadowRoot w = Some (rendering w)
          ∧ _counter w = 18 ∧ _min w = 18
          ∧ option_list (first_match (color_rules w)) = ["at-18"])
    as (Hd & H18 & Hmin & Hfirst) by (vm_compute; repeat split).
  clearbody w.
  destruct (C6_color_state_first_match w _ Hd) as (d' & Hd' & Hf & _ & Hp).
  exists d'. split; [exact Hd' |]. split; [by rewrite Hf |].
  apply Hp; congruence.
Defined.

(** C7.  After a sync of a rendered widget, the increment button is
    disabled exactly when [value >= max] and the decrement button exactly
    when [value <= min]. *)
Theorem C7_buttons_disabled_at_bounds w d :
  shadowRoot w = Some d →
  ∃ d', shadowRoot (_update w) = Some d'
    ∧ (inc_disabled d' = true ↔ _counter w >= _max w)
    ∧ (dec_disabled d' = true ↔ _counter w <= _min w).
Proof.
  intros Hd. exists (rendering w).
  rewrite _update_shadowRoot, Hd. split; [done |]. simpl.
  rewrite Z.geb_leb, !Z.leb_le. lia.
Qed.

(** Scenario A: with the defaults, ten steps up give 10; the sync leaves
    the increment button disabled and the number display with [at-max]
    and [bold]. *)
Lemma C7_buttons_disabled_witness :
  let w := apply_all (attach []) (replicate 10 (Step 1)) in
  store w = (10, 0, 0, 10)
  ∧ ∃ d', shadowRoot w = Some d' ∧ shadowRoot (_update w) = Some d'
      ∧ inc_disabled d' = true ∧ dec_disabled d' = false
      ∧ num_class d' = ["at-max"; "bold"].
Proof.
  intros w.
  assert (store w = (10, 0, 0, 10)
          ∧ _counter w = 10 ∧ _max w = 10
          ∧ shadowRoot w = Some (rendering w)
          ∧ dec_disabled (rendering w) = false
          ∧ num_class (rendering w) = ["at-max"; "bold"])
    as (Hs & Hc & Hmax & Hd & Hdec & Hcl) by (vm_compute; repeat split).
  clearbody w. split; [exact Hs |].
  destruct (C7_buttons_disabled_at_bounds w _ Hd) as (d' & Hd' & Hinc & _).
  assert (d' = rendering w) as Heq.
  { pose proof Hd' as Hr. rewrite _update_shadowRoot, Hd in Hr.
    by injection Hr as <-. }
  exists d'. split; [congruence |]. split; [exact Hd' |].
  split; [apply Hinc; lia |]. by rewrite Heq.
Defined.

(** The same holds of the shadow tree of every reachable widget as it
    stands, without a further sync: each operation ends with one. *)
Lemma reachable_buttons w d :
  reachable w → shadowRoot w = Some d →
  (inc_disabled d = true ↔ _counter w >= _max w)
  ∧ (dec_disabled d = true ↔ _counter w <= _min w).
Proof.
  intros Hw Hd. rewrite (reachable_view_synced w Hw d Hd). simpl.
  rewrite Z.geb_leb, !Z.leb_le. lia.
Qed.

End ViewBinder.

(* ===================================================================== *)
(** * External configuration *)
(* ===================================================================== *)

Section NonNumeric.







End NonNumeric.

Section Configuration.

Implicit Types (w : widget) (name value s : string).








End Configuration.

(* ===================================================================== *)
(** * Attaching, and the celebratory effect *)
(* ===================================================================== *)

Section Attach.

Implicit Types (w : widget) (v : string) (n : Z).

Lemma steps_keep_start_and_bounds w (deltas : list Z) :
  let w' := apply_all w (map Step deltas) in
  _start w' = _start w ∧ _min w' = _min w ∧ _max w' = _max w.
Proof.
  revert w. induction deltas as [| delta deltas IH]; intros w; [done |].
  simpl in *. destruct (IH (_change w delta)) as (-> & -> & ->).
  pose proof (_change_store w delta) as Hs. unfold store in Hs.
  by destruct (_ || _); injection Hs as _ -> -> ->.
Qed.

(** C10, as stated, fails for a configured value outside the bounds: with
    [counter="50"] and the default bounds, [start] is 50 but a reset
    brings the counter to 10. *)
Lemma C10_reset_clamps_configured_value :
  ¬ (∀ w v n,
       getAttribute w "counter" = Some v → StringToNumber v = Fin n →
       getAttribute w "start" = None →
       _start (connectedCallback w) = n
       ∧ _counter (_doReset (connectedCallback w)) = n).
Proof.
  intros Hclaim.
  destruct (Hclaim (setAttribute constructor "counter" "50") "50" 50
                   eq_refl eq_refl eq_refl) as [_ Hreset].
  vm_compute in Hreset. discriminate.
Qed.

(** C10 (amended).  When the element carries a [counter] attribute holding
    a numeral and no [start] attribute as it is connected, [counter] and
    [start] are both initialized to that number, not to the default 0.  A
    later reset, whatever steps came in between, brings the counter to
    that number clamped into [[min, max]]: to the configured value itself
    whenever it lies within the bounds. *)
Theorem C10_start_defaults_to_counter w v n (deltas : list Z) :
  getAttribute w "counter" = Some v → StringToNumber v = Fin n →
  getAttribute w "start" = None →
  let w' := connectedCallback w in
  _counter w' = n ∧ _start w' = n
  ∧ _counter (_doReset (apply_all w' (map Step deltas)))
    = Z.min (_max w') (Z.max (_min w') n)
  ∧ (_min w' <= n <= _max w' →
     _counter (_doReset (apply_all w' (map Step deltas))) = n).
Proof.
  intros Hv Hn Hstart w'.
  pose proof (connectedCallback_store w) as Hstore.
  fold w' in Hstore. clearbody w'.
  assert (_numAttr w "counter" (_counter w) = n) as Hnc.
  { unfold _numAttr. by rewrite Hv, Hn. }
  assert (_numAttr w "start" n = n) as Hns.
  { unfold _numAttr. by rewrite Hstart. }
  rewrite Hnc, Hns in Hstore. unfold store in Hstore.
  injection Hstore as Hc Hs _ _.
  assert (_counter (_doReset (apply_all w' (map Step deltas)))
          = Z.min (_max w') (Z.max (_min w') n)) as Hreset.
  { pose proof (_doReset_store (apply_all w' (map Step deltas))) as Hr.
    unfold store in Hr. injection Hr as Hr _ _ _.
    destruct (steps_keep_start_and_bounds w' deltas) as (Hst & Hmin & Hmax).
    by rewrite Hr, Hst, Hmin, Hmax, Hs. }
  repeat split; [done | done | done |]. intros Hrange. rewrite Hreset. lia.
Qed.

Lemma C10_start_defaults_witness :
  let w := setAttribute constructor "counter" "7" in
  let w' := connectedCallback w in
  getAttribute w "counter" = Some "7" ∧ StringToNumber "7" = Fin 7
  ∧ getAttribute w "start" = None
  ∧ _start w' = 7
  ∧ _counter (_doReset (apply_all w' (map Step [1; 1; -1]))) = 7.
Proof.
  intros w w'.
  assert (getAttribute w "counter" = Some "7"
          ∧ getAttribute w "start" = None
          ∧ _min w' <= 7 <= _max w') as (Hv & Hstart & Hrange).
  { vm_compute. repeat split; discriminate. }
  assert (StringToNumber "7" = Fin 7) as Hn by reflexivity.
  subst w'. clearbody w.
  destruct (C10_start_defaults_to_counter w "7" 7 [1; 1; -1] Hv Hn Hstart)
    as (_ & Hs & _ & Hreset).
  split; [exact Hv |]. split; [exact Hn |]. split; [exact Hstart |].
  split; [exact Hs |]. exact (Hreset Hrange).
Defined.

End Attach.

Section Celebration.

Implicit Types (w : widget) (delta : Z).

(** What the stepping path does: an accepted step that lands on 21 calls
    [_makeItRain] once, every other step not at all. *)
Lemma step_celebrates_once_at_21 w delta :
  _min w <= _counter w + delta <= _max w →
  _counter (_change w delta) = _counter w + delta
  ∧ confetti (_change w delta)
    = (if _counter w + delta =? 21 then S (confetti w) else confetti w).
Proof.
  intros Hin.
  pose proof (_change_store w delta) as Hs.
  apply (f_equal (λ s, s.1.1.1)) in Hs.
  rewrite _change_confetti.
  destruct (_ || _) eqn:Hguard; [| done].
  apply orb_true_iff in Hguard as [Hgt | Hlt]; lia.
Qed.

Lemma rejected_step_does_not_celebrate w delta :
  ¬ (_min w <= _counter w + delta <= _max w) →
  confetti (_change w delta) = confetti w.
Proof.
  intros Hout. rewrite _change_confetti.
  destruct (_ || _) eqn:Hguard; [done |].
  apply orb_false_iff in Hguard as [Hgt Hlt]. lia.
Qed.

(** Scenario B: [min=0, max=25, start=0]; twenty-one steps up reach 21
    and call [_makeItRain] exactly once. *)
Example scenario_B :
  let w := attach [("min", "0"); ("max", "25"); ("start", "0")] in
  let w' := apply_all w (replicate 21 (Step 1)) in
  confetti w = 0%nat ∧ _counter w' = 21 ∧ confetti w' = 1%nat.
Proof. vm_compute. repeat split. Qed.

(** C4, at the input where the code departs from it.  With [start=21]
    and [max=25] the widget attaches at 0; [reset()] is a transition
    whose resulting value is exactly 21, and [_makeItRain] is not called:
    [_doReset] has no counterpart of the last line of [_change]. *)
Theorem C4_reset_onto_21_does_not_celebrate :
  let w := attach [("start", "21"); ("max", "25")] in
  store w = (0, 21, 0, 25)
  ∧ _counter (_doReset w) = 21
  ∧ confetti (_doReset w) = confetti w
  ∧ confetti (_doReset w) = 0%nat.
Proof. vm_compute. repeat split. Qed.

(** No reset ever calls [_makeItRain]. *)
Lemma reset_never_celebrates w : confetti (_doReset w) = confetti w.
Proof. apply _doReset_confetti. Qed.

End Celebration.

(* ===================================================================== *)
(** * Further properties: attributes *)
(* ===================================================================== *)

Section AttributeReflection.

Implicit Types (w : widget) (name value : string) (delta : Z).

Lemma written_back_attribute w name :
  getAttribute (written_back w) name =
  if bool_decide (name = "counter") then Some (NumberToString (_counter w))
  else getAttribute w name.
Proof.
  unfold getAttribute, written_back. simpl. case_bool_decide as Hn.
  - subst name. apply lookup_insert_eq.
  - by apply lookup_insert_ne.
Qed.

(** X1.  Writing the counter back to its own attribute, as [_change] and
    [_doReset] do, changes no field: the callback that the write re-enters
    parses the numeral back to the value it came from.  It does not call
    the effect nor touch the key listener either. *)
Theorem X1_write_back_keeps_fields w :
  let w' := setAttribute w "counter" (NumberToString (_counter w)) in
  store w' = store w ∧ confetti w' = confetti w ∧ keydown w' = keydown w
  ∧ getAttribute w' "counter" = Some (NumberToString (_counter w)).
Proof.
  simpl. rewrite setAttribute_counter.
  case_bool_decide;
    rewrite ?_update_store, ?_update_confetti, ?_update_keydown;
    unfold getAttribute; rewrite ?_update_attributes;
    repeat split; try done;
    apply (written_back_attribute w "counter").
Qed.



(** X3.  Removing an attribute keeps every field at its last value: the
    callback finds [null] and falls back, so the constructor default is not
    restored.  The attribute is gone afterwards. *)
Theorem X3_remove_attribute_keeps_fields w name :
  store (removeAttribute w name) = store w
  ∧ getAttribute (removeAttribute w name) name = None
  ∧ confetti (removeAttribute w name) = confetti w.
Proof.
  split; [apply removeAttribute_store |]. split.
  - unfold getAttribute. rewrite removeAttribute_attributes.
    apply lookup_delete_eq.
  - unfold removeAttribute, attributeChangedCallback.
    destruct (getAttribute w name); [| done].
    repeat case_bool_decide; rewrite ?_update_confetti; done.
Qed.

(** X4.  Setting an attribute to the string it already holds changes
    nothing at all: the callback returns at its first line. *)
Theorem X4_same_value_is_noop w name value :
  getAttribute w name = Some value → setAttribute w name value = w.
Proof.
  intros Hold. unfold setAttribute. rewrite Hold.
  unfold getAttribute in Hold. rewrite (insert_id _ _ _ Hold).
  rewrite attributeChangedCallback_same.
  destruct w. by case_bool_decide.
Qed.

Lemma X4_same_value_witness :
  let w := attach [("min", "abc"); ("max", "7")] in
  getAttribute w "max" = Some "7" ∧ setAttribute w "max" "7" = w.
Proof.
  intros w.
  assert (getAttribute w "max" = Some "7") as Hold by (vm_compute; done).
  clearbody w. split; [exact Hold |].
  exact (X4_same_value_is_noop w "max" "7" Hold).
Defined.

End AttributeReflection.

(* ===================================================================== *)
(** * Further properties: the widget as driven from outside *)
(* ===================================================================== *)

Section DrivenWidget.

Implicit Types (w : widget) (d : dom) (e : event) (es : list event).
Implicit Types (name value key v : string) (n : Z).

(** X5.  The shadow tree never lags behind: in every reachable state that
    has been rendered, the number display shows the decimal numeral of the
    value, the two labels show the bounds, and the two buttons are disabled
    exactly at or beyond their bound.  Every operation that changes a field
    ends with a call of [_update]. *)
Theorem X5_rendered_view_shows_fields w d :
  reachable w → shadowRoot w = Some d →
  num_text d = NumberToString (_counter w)
  ∧ min_text d = NumberToString (_min w)
  ∧ max_text d = NumberToString (_max w)
  ∧ inc_disabled d = (_counter w >=? _max w)
  ∧ dec_disabled d = (_counter w <=? _min w).
Proof.
  intros Hw Hd. by rewrite (reachable_view_synced w Hw d Hd).
Qed.

Lemma X5_rendered_view_witness :
  let w := run constructor
             [SetAttribute "max" "3"; Connect; Click Inc; KeyDown "ArrowRight";
              SetAttribute "min" "2"] in
  reachable w
  ∧ shadowRoot w = Some {| num_text := "2"; num_class := ["at-min"; "bold"];
                           min_text := "2"; max_text := "3";
                           inc_disabled := false; dec_disabled := true |}
  ∧ _counter w = 2 ∧ _min w = 2 ∧ _max w = 3.
Proof.
  intros w.
  assert (reachable w) as Hw by (eexists; reflexivity).
  assert (shadowRoot w
          = Some {| num_text := "2"; num_class := ["at-min"; "bold"];
                    min_text := "2"; max_text := "3";
                    inc_disabled := false; dec_disabled := true |}
          ∧ NumberToString 2 = "2") as [Hd Hs] by (vm_compute; repeat split).
  clearbody w.
  destruct (X5_rendered_view_shows_fields w _ Hw Hd) as (Hc & Hmin & Hmax & _).
  simpl in Hc, Hmin, Hmax.
  assert (∀ a b, NumberToString a = NumberToString b → a = b) as Hinj.
  { intros a b. apply (inj pretty). }
  split; [exact Hw |]. split; [exact Hd |].
  split; [apply Hinj; by rewrite <- Hc |].
  split; [apply Hinj; by rewrite <- Hmin |].
  apply Hinj. rewrite <- Hmax. by vm_compute.
Defined.

(** X6.  Attributes and fields never contradict each other: in every
    reachable state, an observed attribute whose string converts to a safe
    integer has exactly that integer in its field. *)
Theorem X6_numeric_attribute_agrees_with_field w name v n :
  reachable w → name ∈ observedAttributes →
  getAttribute w name = Some v → StringToNumber v = Fin n →
  field w name = n.
Proof.
  intros Hw Hobs Hv Hn.
  apply (reachable_attributes_synced w Hw name v n Hobs Hv). by rewrite Hn.
Qed.

Lemma X6_numeric_attribute_witness :
  let w := run constructor
             [SetAttribute "counter" "0x10"; SetAttribute "max" "20"; Connect;
              Click Inc; Click Inc; KeyDown "R"] in
  reachable w ∧ "counter" ∈ observedAttributes
  ∧ getAttribute w "counter" = Some "16" ∧ StringToNumber "16" = Fin 16
  ∧ field w "counter" = 16.
Proof.
  intros w.
  assert (reachable w) as Hw by (eexists; reflexivity).
  assert (getAttribute w "counter" = Some "16") as Hv by (vm_compute; done).
  clearbody w.
  assert (StringToNumber "16" = Fin 16) as Hn by reflexivity.
  split; [exact Hw |]. split; [exact observed_counter |].
  split; [exact Hv |]. split; [exact Hn |].
  exact (X6_numeric_attribute_agrees_with_field
           w "counter" "16" 16 Hw observed_counter Hv Hn).
Defined.

Lemma reachable_numAttr_counter w :
  reachable w → _numAttr w "counter" (_counter w) = _counter w.
Proof.
  intros Hw. rewrite _numAttr_eq.
  destruct (getAttribute w "counter") as [v |] eqn:Hv; [| done].
  unfold converted.
  destruct (finite_value (StringToNumber v)) as [n |] eqn:Hn; [| done].
  symmetry.
  exact (reachable_attributes_synced w Hw "counter" v n observed_counter Hv Hn).
Qed.

Lemma reachable_numAttr_min w : reachable w → _numAttr w "min" (_min w) = _min w.
Proof.
  intros Hw. rewrite _numAttr_eq.
  destruct (getAttribute w "min") as [v |] eqn:Hv; [| done].
  unfold converted.
  destruct (finite_value (StringToNumber v)) as [n |] eqn:Hn; [| done].
  symmetry.
  apply (reachable_attributes_synced w Hw "min" v n); [| done..].
  unfold observedAttributes. rewrite !elem_of_cons. tauto.
Qed.

Lemma reachable_numAttr_max w : reachable w → _numAttr w "max" (_max w) = _max w.
Proof.
  intros Hw. rewrite _numAttr_eq.
  destruct (getAttribute w "max") as [v |] eqn:Hv; [| done].
  unfold converted.
  destruct (finite_value (StringToNumber v)) as [n |] eqn:Hn; [| done].
  symmetry.
  apply (reachable_attributes_synced w Hw "max" v n); [| done..].
  unfold observedAttributes. rewrite !elem_of_cons. tauto.
Qed.

(** X7.  Connecting again, as when the element is moved in the document,
    keeps [counter], [min] and [max] of a reachable widget, but re-reads
    [start] with the current value as fallback: without a [start] attribute
    the reset target becomes the current value. *)
Theorem X7_reconnect_resets_start_to_value w :
  reachable w →
  _counter (connectedCallback w) = _counter w
  ∧ _min (connectedCallback w) = _min w
  ∧ _max (connectedCallback w) = _max w
  ∧ (getAttribute w "start" = None →
     _start (connectedCallback w) = _counter w).
Proof.
  intros Hw.
  pose proof (connectedCallback_store w) as Hstore.
  rewrite (reachable_numAttr_counter w Hw), (reachable_numAttr_min w Hw),
    (reachable_numAttr_max w Hw) in Hstore.
  set (w' := connectedCallback w) in *. clearbody w'.
  unfold store in Hstore. injection Hstore as Hc Hs Hmin Hmax.
  repeat split; try done.
  intros Hstart. rewrite Hs, _numAttr_eq. by rewrite Hstart.
Qed.

Lemma X7_reconnect_witness :
  let w := run constructor [Connect; Click Inc; Click Inc; Disconnect] in
  reachable w ∧ getAttribute w "start" = None
  ∧ store w = (2, 0, 0, 10)
  ∧ _start (connectedCallback w) = 2
  ∧ _counter (connectedCallback w) = 2.
Proof.
  intros w.
  assert (reachable w) as Hw by (eexists; reflexivity).
  assert (getAttribute w "start" = None ∧ store w = (2, 0, 0, 10)
          ∧ _counter w = 2) as (Hstart & Hs & Hc)
    by (vm_compute; repeat split).
  clearbody w.
  destruct (X7_reconnect_resets_start_to_value w Hw) as (Hc' & _ & _ & Hst).
  split; [exact Hw |]. split; [exact Hstart |]. split; [exact Hs |].
  split; [by rewrite (Hst Hstart) | by rewrite Hc'].
Defined.

Lemma _numAttr_attributes w w' name fallback :
  attributes w' = attributes w →
  _numAttr w' name fallback = _numAttr w name fallback.
Proof. intros Ha. unfold _numAttr, getAttribute. by rewrite Ha. Qed.

Lemma _numAttr_idempotent w name fallback :
  _numAttr w name (_numAttr w name fallback) = _numAttr w name fallback.
Proof.
  rewrite !_numAttr_eq. destruct (getAttribute w name); [| done].
  unfold converted. by destruct (finite_value _).
Qed.

Lemma widget_ext w w' :
  store w = store w' → attributes w = attributes w' →
  shadowRoot w = shadowRoot w' → keydown w = keydown w' →
  confetti w = confetti w' → w = w'.
Proof.
  destruct w, w'. unfold store. simpl.
  intros [= -> -> -> ->] -> -> -> ->. reflexivity.
Qed.

Lemma connectedCallback_shadowRoot w :
  shadowRoot (connectedCallback w) = Some (rendering (connectedCallback w)).
Proof.
  pose proof (connectedCallback_view_synced w) as Hsync.
  unfold view_synced in Hsync.
  destruct (shadowRoot (connectedCallback w)) as [d |] eqn:Hd.
  - by rewrite (Hsync d eq_refl).
  - unfold connectedCallback, _render in Hd. rewrite _update_eq in Hd.
    discriminate.
Qed.

Lemma connectedCallback_confetti w :
  confetti (connectedCallback w) = confetti w.
Proof.
  unfold connectedCallback, _render.
  change (confetti (set_keydown ?x true)) with (confetti x).
  by rewrite _update_confetti.
Qed.

(** X8.  [connectedCallback] is idempotent: connecting twice in a row
    leaves the widget exactly as connecting once, whatever the attributes
    hold. *)
Theorem X8_connect_idempotent w :
  connectedCallback (connectedCallback w) = connectedCallback w.
Proof.
  assert (store (connectedCallback (connectedCallback w))
          = store (connectedCallback w)) as Hstore.
  { rewrite (connectedCallback_store (connectedCallback w)).
    pose proof (connectedCallback_store w) as Hs.
    pose proof (connectedCallback_attributes w) as Ha.
    set (w1 := connectedCallback w) in *. clearbody w1.
    rewrite !(_numAttr_attributes w w1) by done.
    unfold store in Hs. injection Hs as Hc Hst Hmin Hmax.
    rewrite Hc, Hmin, Hmax, !_numAttr_idempotent. unfold store.
    by rewrite Hc, Hst, Hmin, Hmax. }
  apply widget_ext; [done | | | done |].
  - by rewrite !connectedCallback_attributes.
  - rewrite !connectedCallback_shadowRoot. f_equal.
    by apply rendering_store.
  - by rewrite !connectedCallback_confetti.
Qed.

End DrivenWidget.

(* ===================================================================== *)
(** * Further properties: rendering *)
(* ===================================================================== *)

Section Rendering.

Implicit Types (w : widget) (d : dom) (c : string).

(** X9.  After a sync of a rendered widget, the number display carries
    [bold] exactly when the value equals [min] or [max], whichever color
    class it has besides; and all its classes are among the four color
    classes and [bold]. *)
Theorem X9_bold_exactly_at_a_bound w d :
  shadowRoot w = Some d →
  ∃ d', shadowRoot (_update w) = Some d'
    ∧ ("bold" ∈ num_class d' ↔ _counter w = _min w ∨ _counter w = _max w)
    ∧ (∀ c, c ∈ num_class d' → c ∈ color_classes ∨ c = "bold").
Proof.
  intros Hd. exists (rendering w).
  rewrite _update_shadowRoot, Hd. split; [done |].
  unfold rendering, color_classes. simpl.
  destruct (Z.eqb_spec (_counter w) (_min w)) as [Hmin | Hmin],
    (Z.eqb_spec (_counter w) (_max w)) as [Hmax | Hmax],
    (_counter w =? 18), (_counter w =? 21); simpl;
    (split;
     [ rewrite ?elem_of_cons, ?elem_of_nil; split;
       [ intros H; repeat (destruct H as [H | H]; try discriminate);
         tauto
       | tauto ]
     | intros c; rewrite ?elem_of_cons, ?elem_of_nil; tauto ]).
Qed.

Lemma X9_bold_witness :
  let w := attach [("min", "18"); ("max", "21"); ("counter", "18")] in
  ∃ d', shadowRoot (_update w) = Some d' ∧ "bold" ∈ num_class d'
        ∧ (∀ c, c ∈ num_class d' → c ∈ color_classes ∨ c = "bold").
Proof.
  intros w.
  assert (shadowRoot w = Some (rendering w) ∧ _counter w = _min w)
    as [Hd Hmin] by (vm_compute; repeat split).
  clearbody w.
  destruct (X9_bold_exactly_at_a_bound w _ Hd) as (d' & Hd' & Hbold & Hall).
  exists d'. split; [exact Hd' |]. split; [apply Hbold; by left | exact Hall].
Defined.

(** X10.  [_render] leaves nothing of its template in the state: the tree
    it produces is the one [_update] writes for the current fields,
    whatever was rendered before.  In particular the class [number] that
    the template gives the display is already gone, and the buttons are
    disabled at the bounds from the first render on. *)
Theorem X10_render_is_a_full_sync w :
  ∃ d, shadowRoot (_render w) = Some d
    ∧ ("number" ∉ num_class d)
    ∧ num_text d = NumberToString (_counter w)
    ∧ inc_disabled d = (_counter w >=? _max w)
    ∧ dec_disabled d = (_counter w <=? _min w)
    ∧ store (_render w) = store w
    ∧ (∀ before : option dom,
         shadowRoot (_render (set_shadowRoot w before)) = Some d).
Proof.
  exists (rendering w).
  assert (∀ before : option dom,
            shadowRoot (_render (set_shadowRoot w before))
            = Some (rendering w)) as Hany.
  { intros before. unfold _render. by rewrite _update_shadowRoot. }
  split; [unfold _render; by rewrite _update_shadowRoot |].
  split.
  - unfold rendering. simpl.
    destruct (_counter w =? 18), (_counter w =? 21),
      (_counter w =? _min w), (_counter w =? _max w); simpl;
      rewrite ?elem_of_cons, ?elem_of_nil;
      intros H; repeat (destruct H as [H | H]; try discriminate); done.
  - do 3 (split; [done |]).
    split; [unfold _render; by rewrite _update_store | exact Hany].
Qed.

End Rendering.

(* ===================================================================== *)
(** * Further properties: keys and clicks *)
(* ===================================================================== *)

Section Interaction.

Implicit Types (w : widget) (d : dom) (e : event) (es : list event).
Implicit Types (key : string) (b : button).

Lemma lower_char_r (c : ascii) :
  lower_char c = "r"%char ↔ c = "r"%char ∨ c = "R"%char.
Proof.
  destruct c as [[] [] [] [] [] [] [] []]; vm_compute;
    (split; [intros H; try discriminate H; auto
            | intros [H | H]; try discriminate H; reflexivity]).
Qed.

Lemma toLowerCase_r key : toLowerCase key = "r" ↔ key = "r" ∨ key = "R".
Proof.
  destruct key as [| c [| c' k]]; simpl.
  - split; [discriminate | intros [H | H]; discriminate].
  - split.
    + intros [= Hc]. apply lower_char_r in Hc as [-> | ->]; auto.
    + intros [[= ->] | [= ->]]; reflexivity.
  - split; [discriminate | intros [H | H]; discriminate].
Qed.

(** X11.  Exactly four keys act: [ArrowRight] steps up, [ArrowLeft] steps
    down, [r] and [R] reset.  Every other key, among them a longer string
    that only starts with one of these, leaves the widget as it is. *)
Theorem X11_only_four_keys_act w key :
  _onKey w key =
  if bool_decide (key = "ArrowRight") then _change w 1
  else if bool_decide (key = "ArrowLeft") then _change w (-1)
  else if bool_decide (key = "r" ∨ key = "R") then _doReset w
  else w.
Proof.
  unfold _onKey. do 2 (case_bool_decide; [done |]).
  rewrite (bool_decide_ext _ _ (toLowerCase_r key)). done.
Qed.



Lemma interaction_cases w e :
  is_interaction e →
  dispatch w e = w ∨ dispatch w e = _doReset w
  ∨ dispatch w e = _change w 1 ∨ dispatch w e = _change w (-1).
Proof.
  destruct e as [| | | | b | key]; try done; intros _; simpl.
  - unfold click. destruct (shadowRoot w); [| auto].
    destruct b; repeat case_match; auto.
  - unfold _onKey. repeat case_match; auto.
Qed.

Lemma interaction_frame w e :
  is_interaction e →
  _start (dispatch w e) = _start w
  ∧ _min (dispatch w e) = _min w
  ∧ _max (dispatch w e) = _max w
  ∧ (in_range w → in_range (dispatch w e)).
Proof.
  intros He.
  assert (∀ delta, _start (_change w delta) = _start w
                   ∧ _min (_change w delta) = _min w
                   ∧ _max (_change w delta) = _max w) as Hstep.
  { intros delta. pose proof (_change_store w delta) as Hs.
    unfold store in Hs. by destruct (_ || _); injection Hs as _ -> -> ->. }
  destruct (interaction_cases w e He) as [-> | [-> | [-> | ->]]].
  - done.
  - pose proof (_doReset_store w) as Hs. unfold store in Hs.
    injection Hs as _ -> -> ->. do 3 (split; [done |]).
    intros Hin. apply _doReset_in_range. unfold in_range in Hin. lia.
  - destruct (Hstep 1) as (-> & -> & ->). do 3 (split; [done |]).
    apply _change_in_range.
  - destruct (Hstep (-1)) as (-> & -> & ->). do 3 (split; [done |]).
    apply _change_in_range.
Qed.

(** X13.  No click and no key press can take the value out of its bounds
    or change the configuration: an interaction keeps [start], [min] and
    [max], and keeps [min <= value <= max] when it holds. *)
Theorem X13_interaction_keeps_configuration_and_range w e :
  is_interaction e →
  _start (dispatch w e) = _start w
  ∧ _min (dispatch w e) = _min w
  ∧ _max (dispatch w e) = _max w
  ∧ (in_range w → in_range (dispatch w e)).
Proof. apply interaction_frame. Qed.

Lemma X13_interaction_witness :
  let w := attach [("min", "3"); ("max", "4"); ("counter", "4")] in
  is_interaction (KeyDown "ArrowRight") ∧ in_range w
  ∧ in_range (dispatch w (KeyDown "ArrowRight"))
  ∧ _max (dispatch w (KeyDown "ArrowRight")) = 4.
Proof.
  intros w.
  assert (_min w = 3 ∧ _counter w = 4 ∧ _max w = 4) as (Hmin & Hc & Hmax)
    by (vm_compute; repeat split).
  clearbody w.
  assert (in_range w) as Hin by (unfold in_range; lia).
  destruct (X13_interaction_keeps_configuration_and_range
              w (KeyDown "ArrowRight") I) as (_ & _ & Hmax' & Hkeep).
  split; [exact I |]. split; [exact Hin |]. split; [exact (Hkeep Hin) |].
  by rewrite Hmax'.
Defined.

End Interaction.

(* ===================================================================== *)
(** * Further properties: sequences of steps, the effect, the listener *)
(* ===================================================================== *)

Section Sequences.

Implicit Types (w : widget) (e : event) (es : list event) (key : string).

Lemma _change_fields w delta :
  _counter (_change w delta)
  = (if (_counter w + delta >? _max w) || (_counter w + delta <? _min w)
     then _counter w else _counter w + delta)
  ∧ _start (_change w delta) = _start w
  ∧ _min (_change w delta) = _min w
  ∧ _max (_change w delta) = _max w.
Proof.
  pose proof (_change_store w delta) as Hs. unfold store in Hs.
  by destruct (_ || _); injection Hs as -> -> -> ->.
Qed.







(** X16.  The effect is called by nothing but a click or a key press that
    lands on 21 from 20 or 22, and then once: every other event, among them
    an attribute change to 21, a reset onto 21 and a connect at 21, leaves
    the number of calls as it is. *)
Theorem X16_effect_only_on_a_step_onto_21 w e :
  confetti (dispatch w e) = confetti w
  ∨ (is_interaction e
     ∧ confetti (dispatch w e) = S (confetti w)
     ∧ _counter (dispatch w e) = 21
     ∧ (_counter w = 20 ∨ _counter w = 22)).
Proof.
  assert (∀ delta, delta = 1 ∨ delta = -1 →
            confetti (_change w delta) = confetti w
            ∨ (confetti (_change w delta) = S (confetti w)
               ∧ _counter (_change w delta) = 21
               ∧ (_counter w = 20 ∨ _counter w = 22))) as Hstep.
  { intros delta Hdelta. rewrite _change_confetti.
    destruct (_change_fields w delta) as (-> & _).
    destruct (_ || _); [by left |].
    destruct (Z.eqb_spec (_counter w + delta) 21) as [H21 | H21];
      [right | by left].
    repeat split; [done | lia]. }
  destruct e as [name value | name | | | b | key]; simpl.
  - left. apply setAttribute_confetti.
  - left. unfold removeAttribute, attributeChangedCallback.
    destruct (getAttribute w name); [| done].
    repeat case_bool_decide; rewrite ?_update_confetti; done.
  - left. apply connectedCallback_confetti.
  - by left.
  - destruct (interaction_cases w (Click b) I) as [H | [H | [H | H]]];
      simpl in H; rewrite H.
    + by left.
    + left. apply _doReset_confetti.
    + destruct (Hstep 1) as [? | ?]; [by left | by left | by right].
    + destruct (Hstep (-1)) as [? | ?]; [by right | by left | by right].
  - destruct (interaction_cases w (KeyDown key) I) as [H | [H | [H | H]]];
      simpl in H; rewrite H.
    + by left.
    + left. apply _doReset_confetti.
    + destruct (Hstep 1) as [? | ?]; [by left | by left | by right].
    + destruct (Hstep (-1)) as [? | ?]; [by right | by left | by right].
Qed.

Lemma _change_keydown w delta : keydown (_change w delta) = keydown w.
Proof.
  rewrite _change_eq. destruct (_ || _); [done |]. simpl.
  destruct (_ =? 21); simpl; by rewrite _update_keydown.
Qed.

Lemma _doReset_keydown w : keydown (_doReset w) = keydown w.
Proof. by rewrite _doReset_eq, _update_keydown. Qed.

Lemma _change_stays_rendered w delta :
  is_Some (shadowRoot w) → is_Some (shadowRoot (_change w delta)).
Proof.
  intros [d Hd]. rewrite _change_eq. destruct (_ || _); [by eexists |].
  simpl. destruct (_ =? 21); simpl; rewrite _update_shadowRoot; simpl;
    rewrite Hd; by eexists.
Qed.

Lemma _doReset_stays_rendered w :
  is_Some (shadowRoot w) → is_Some (shadowRoot (_doReset w)).
Proof.
  intros [d Hd]. rewrite _doReset_eq, _update_shadowRoot. simpl.
  rewrite Hd. by eexists.
Qed.

Lemma dispatch_keydown w e :
  keydown (dispatch w e) = true → keydown w = true ∨ e = Connect.
Proof.
  destruct e as [name value | name | | | b | key]; simpl; auto.
  - unfold setAttribute, attributeChangedCallback.
    repeat case_bool_decide; rewrite ?_update_keydown; auto.
  - unfold removeAttribute, attributeChangedCallback.
    destruct (getAttribute w name); [| auto].
    repeat case_bool_decide; rewrite ?_update_keydown; auto.
  - discriminate.
  - destruct (interaction_cases w (Click b) I) as [H | [H | [H | H]]];
      simpl in H; rewrite H, ?_doReset_keydown, ?_change_keydown; auto.
  - destruct (interaction_cases w (KeyDown key) I) as [H | [H | [H | H]]];
      simpl in H; rewrite H, ?_doReset_keydown, ?_change_keydown; auto.
Qed.

Lemma dispatch_stays_rendered w e :
  is_Some (shadowRoot w) → is_Some (shadowRoot (dispatch w e)).
Proof.
  intros Hw.
  assert (∀ w0, is_Some (shadowRoot w0) → is_Some (shadowRoot (_update w0)))
    as Hupd.
  { intros w0 [d Hd]. rewrite _update_shadowRoot, Hd. by eexists. }
  destruct e as [name value | name | | | b | key]; cbn [dispatch].
  - unfold setAttribute, attributeChangedCallback.
    repeat case_bool_decide; try apply Hupd; done.
  - unfold removeAttribute, attributeChangedCallback.
    destruct (getAttribute w name); [| done].
    repeat case_bool_decide; try apply Hupd; done.
  - rewrite connectedCallback_shadowRoot. by eexists.
  - done.
  - destruct (interaction_cases w (Click b) I) as [H | [H | [H | H]]];
      simpl in H; rewrite H;
      auto using _change_stays_rendered, _doReset_stays_rendered.
  - destruct (interaction_cases w (KeyDown key) I) as [H | [H | [H | H]]];
      simpl in H; rewrite H;
      auto using _change_stays_rendered, _doReset_stays_rendered.
Qed.

(** X17.  The key listener is only ever registered on a rendered widget:
    in every reachable state where [_onKey] is registered, the shadow tree
    exists.  After [disconnectedCallback] no key acts until the widget is
    connected again. *)
Theorem X17_keys_only_reach_a_rendered_widget w key :
  reachable w →
  (keydown w = true → is_Some (shadowRoot w))
  ∧ dispatch (dispatch w Disconnect) (KeyDown key) = dispatch w Disconnect.
Proof.
  intros Hw. split; [| done].
  revert w Hw.
  apply (reachable_ind (λ w, keydown w = true → is_Some (shadowRoot w)));
    [discriminate |].
  intros w e IH Hkd.
  destruct (dispatch_keydown w e Hkd) as [Hold | ->].
  - by apply dispatch_stays_rendered, IH.
  - cbn [dispatch]. rewrite connectedCallback_shadowRoot. by eexists.
Qed.

Lemma X17_keys_witness :
  let w := run constructor [SetAttribute "counter" "4"; Connect; KeyDown "r"] in
  reachable w ∧ keydown w = true ∧ is_Some (shadowRoot w)
  ∧ dispatch (dispatch w Disconnect) (KeyDown "ArrowRight")
    = dispatch w Disconnect.
Proof.
  intros w.
  assert (reachable w) as Hw by (eexists; reflexivity).
  assert (keydown w = true) as Hkd by (vm_compute; done).
  clearbody w.
  destruct (X17_keys_only_reach_a_rendered_widget w "ArrowRight" Hw)
    as [Hrendered Hoff].
  split; [exact Hw |]. split; [exact Hkd |].
  split; [exact (Hrendered Hkd) | exact Hoff].
Defined.

(** X18.  A reset is not affected by the clicks and key presses before it:
    after any sequence of interactions, [reset()] leads to the same four
    fields as a reset right away. *)
Theorem X18_reset_forgets_interactions w es :
  Forall is_interaction es →
  store (_doReset (run w es)) = store (_doReset w).
Proof.
  intros Hes. revert w.
  induction Hes as [| e es He Hes IH]; intros w; [done |].
  change (run w (e :: es)) with (run (dispatch w e) es).
  rewrite IH, !_doReset_store.
  by destruct (interaction_frame w e He) as (-> & -> & -> & _).
Qed.

Lemma X18_reset_forgets_witness :
  let w := attach [("start", "5"); ("counter", "2")] in
  let es := [Click Inc; KeyDown "ArrowLeft"; Click ResetButton; Click Dec] in
  Forall is_interaction es
  ∧ store (run w es) = (4, 5, 0, 10)
  ∧ store (_doReset (run w es)) = (5, 5, 0, 10).
Proof.
  intros w es.
  assert (Forall is_interaction es) as Hes by (repeat constructor).
  assert (store (run w es) = (4, 5, 0, 10)
          ∧ store (_doReset w) = (5, 5, 0, 10)) as [Hrun Hreset]
    by (vm_compute; repeat split).
  clearbody w.
  split; [exact Hes |]. split; [exact Hrun |].
  rewrite (X18_reset_forgets_interactions w es Hes). exact Hreset.
Defined.

End Sequences.
